(** * RRBotModularJoint: a simulated single-joint actuator plugin

    Shallow embedding of [ros2_control_demo_hardware/src/rrbot_actuator.cpp].

    The member variables of the class are C++ [double]s; they are modelled by
    Rocq's primitive binary64 floats ([PrimFloat.float]), whose operations are
    the IEEE 754 ones (round to nearest, ties to even) the compiled code
    executes.  A member function is a function from the object to an
    outcome: the returned value with the new object and the trace of log
    lines and sleeps, or a fault (an exception of [std::stod], an index past
    the end of a vector, an overflow of the [int] loop counter).  [std::stod]
    and the base class's [on_init] are parameters of [on_init]. *)

From Stdlib Require Import ZArith Lia Bool List.
From Stdlib Require Import Floats.
From Stdlib Require Uint63.
From Equations Require Import Equations.
From stdpp Require Import gmap strings list fin_maps.
Import ListNotations.

Local Open Scope Z_scope.

(** ** The framework's types, as far as the plugin uses them *)

(** [rclcpp_lifecycle::...::CallbackReturn]. *)
Inductive CallbackReturn := SUCCESS | FAILURE | ERROR.

(** [hardware_interface::return_type]. *)
Inductive return_type := OK | RT_ERROR.

(** [hardware_interface::InterfaceInfo]: only its [name] is read (here
    [if_name], [name] being the field of [ComponentInfo]). *)
Record InterfaceInfo := { if_name : string }.

(** [hardware_interface::ComponentInfo]. *)
Record ComponentInfo := {
  name : string;
  command_interfaces : list InterfaceInfo;
  state_interfaces : list InterfaceInfo
}.

(** [hardware_interface::HardwareInfo]: [hardware_parameters] is an
    [unordered_map<string, string>], [joints] a [vector<ComponentInfo>]. *)
Record HardwareInfo := {
  hardware_parameters : gmap string string;
  joints : list ComponentInfo
}.

(** [hardware_interface::HW_IF_POSITION]. *)
Definition HW_IF_POSITION : string := "position".

(** ** The plugin object *)

(** The data members of [RRBotModularJoint] ([info_] is inherited from
    [ActuatorInterface]).  Their declarations are in the header; the source
    fixes their type: they receive [stod]'s result and [quiet_NaN()], are
    tested with [std::isnan] and printed with [%.1f] and [%.5f]. *)
Record RRBotModularJoint := {
  info_ : HardwareInfo;
  hw_start_sec_ : float;
  hw_stop_sec_ : float;
  hw_slowdown_ : float;
  hw_joint_state_ : float;
  hw_joint_command_ : float
}.

(** ** Observable effects *)

(** The text of a log line, with the values its format string is given. *)
Inductive Message :=
  | MsgStarting
  | MsgStopping
  | MsgSecondsLeft (remaining : float)
  | MsgStarted
  | MsgStopped
  | MsgReading
  | MsgGotState (value : float) (joint : string)
  | MsgRead
  | MsgWriting
  | MsgGotCommand (value : float) (joint : string)
  | MsgWritten
  | MsgCommandCount (joint : string) (found : nat)
  | MsgCommandKind (joint : string) (found : string)
  | MsgStateCount (joint : string) (found : nat)
  | MsgStateKind (joint : string) (found : string).

Inductive Event :=
  | Info (m : Message)          (* RCLCPP_INFO *)
  | Fatal (m : Message)         (* RCLCPP_FATAL *)
  | SleepFor (seconds : Z).     (* rclcpp::sleep_for(std::chrono::seconds(n)) *)

(** ** Member functions as state transformers *)

(** What a call of a member function amounts to: it returns a value and
    leaves the object in a new state, or it does not return normally. *)
Inductive Fault :=
  | InvalidArgument      (* std::invalid_argument thrown by stod *)
  | OutOfRange           (* std::out_of_range thrown by stod *)
  | VectorIndex          (* operator[] past the end of a vector: undefined *)
  | SignedOverflow.      (* i++ at INT_MAX: undefined *)

Inductive Outcome (R : Type) :=
  | Returned (r : R) (st : RRBotModularJoint) (tr : list Event)
  | Faulted (f : Fault) (tr : list Event).
Arguments Returned {R} r st tr.
Arguments Faulted {R} f tr.

(** A statement or expression of a member function: it runs on the object
    and appends to the trace. *)
Definition M (R : Type) : Type := RRBotModularJoint -> Outcome R.

#[global] Instance M_ret : MRet M := fun R r st => Returned r st [].

#[global] Instance M_bind : MBind M := fun A B f m st =>
  match m st with
  | Returned a st' tr =>
      match f a st' with
      | Returned b st'' tr' => Returned b st'' (tr ++ tr')
      | Faulted e tr' => Faulted e (tr ++ tr')
      end
  | Faulted e tr => Faulted e tr
  end.

Definition fault {R} (e : Fault) : M R := fun _ => Faulted e [].
Definition emit (ev : Event) : M unit := fun st => Returned tt st [ev].
Definition gets {R} (field : RRBotModularJoint -> R) : M R := fun st => Returned (field st) st [].
Definition modify (f : RRBotModularJoint -> RRBotModularJoint) : M unit :=
  fun st => Returned tt (f st) [].

Definition RCLCPP_INFO (m : Message) : M unit := emit (Info m).
Definition RCLCPP_FATAL (m : Message) : M unit := emit (Fatal m).
Definition sleep_for (seconds : Z) : M unit := emit (SleepFor seconds).

(** Assignments to the members. *)
Definition set_info_ (v : HardwareInfo) (st : RRBotModularJoint) :=
  {| info_ := v; hw_start_sec_ := hw_start_sec_ st; hw_stop_sec_ := hw_stop_sec_ st;
     hw_slowdown_ := hw_slowdown_ st; hw_joint_state_ := hw_joint_state_ st;
     hw_joint_command_ := hw_joint_command_ st |}.
Definition set_hw_start_sec_ (v : float) (st : RRBotModularJoint) :=
  {| info_ := info_ st; hw_start_sec_ := v; hw_stop_sec_ := hw_stop_sec_ st;
     hw_slowdown_ := hw_slowdown_ st; hw_joint_state_ := hw_joint_state_ st;
     hw_joint_command_ := hw_joint_command_ st |}.
Definition set_hw_stop_sec_ (v : float) (st : RRBotModularJoint) :=
  {| info_ := info_ st; hw_start_sec_ := hw_start_sec_ st; hw_stop_sec_ := v;
     hw_slowdown_ := hw_slowdown_ st; hw_joint_state_ := hw_joint_state_ st;
     hw_joint_command_ := hw_joint_command_ st |}.
Definition set_hw_slowdown_ (v : float) (st : RRBotModularJoint) :=
  {| info_ := info_ st; hw_start_sec_ := hw_start_sec_ st; hw_stop_sec_ := hw_stop_sec_ st;
     hw_slowdown_ := v; hw_joint_state_ := hw_joint_state_ st;
     hw_joint_command_ := hw_joint_command_ st |}.
Definition set_hw_joint_state_ (v : float) (st : RRBotModularJoint) :=
  {| info_ := info_ st; hw_start_sec_ := hw_start_sec_ st; hw_stop_sec_ := hw_stop_sec_ st;
     hw_slowdown_ := hw_slowdown_ st; hw_joint_state_ := v;
     hw_joint_command_ := hw_joint_command_ st |}.
Definition set_hw_joint_command_ (v : float) (st : RRBotModularJoint) :=
  {| info_ := info_ st; hw_start_sec_ := hw_start_sec_ st; hw_stop_sec_ := hw_stop_sec_ st;
     hw_slowdown_ := hw_slowdown_ st; hw_joint_state_ := hw_joint_state_ st;
     hw_joint_command_ := v |}.

(** [v[0]] on a [std::vector]. *)
Definition at0 {A} (v : list A) : M A :=
  match v with
  | x :: _ => mret x
  | [] => fault VectorIndex
  end.

(** [info_.joints[0]]. *)
Definition joint0 : M ComponentInfo := info ← gets info_; at0 (joints info).

(** ** The control cycle *)

(** The right-hand side of the assignment in [read]. *)
Definition simulate (s c d : float) : float := (s + (c - s) / d)%float.

(** [RRBotModularJoint::read]. *)
Definition read : M return_type :=
  RCLCPP_INFO MsgReading;;
  s ← gets hw_joint_state_;
  c ← gets hw_joint_command_;
  d ← gets hw_slowdown_;
  modify (set_hw_joint_state_ (simulate s c d));;
  s' ← gets hw_joint_state_;
  joint ← joint0;
  RCLCPP_INFO (MsgGotState s' (name joint));;
  RCLCPP_INFO MsgRead;;
  mret OK.

(** [RRBotModularJoint::write]. *)
Definition write : M return_type :=
  RCLCPP_INFO MsgWriting;;
  c ← gets hw_joint_command_;
  joint ← joint0;
  RCLCPP_INFO (MsgGotCommand c (name joint));;
  RCLCPP_INFO MsgWritten;;
  mret OK.

(** ** Activation and deactivation *)

Definition INT_MAX : Z := 2147483647.

(** The conversion of the [int] counter to [double] in [i < hw_start_sec_]
    and [hw_start_sec_ - i]; the counter is never negative. *)
Definition int_to_double (i : Z) : float := PrimFloat.of_uint63 (Uint63.of_Z i).

(** The body of the two countdown loops, at counter [i]. *)
Definition countdown_body (limit : float) (i : Z) : list Event :=
  [SleepFor 1; Info (MsgSecondsLeft (limit - int_to_double i))].

Inductive LoopResult :=
  | LoopDone (tr : list Event)
  | LoopOverflow (tr : list Event).

(** [for (int i = 0; i < limit; i++) { sleep_for(1s); RCLCPP_INFO(..., limit - i); }]
    from the point where the counter is [i] and [tr] has been emitted: the
    condition, the body, then [i++], which is defined below [INT_MAX] only. *)
Equations? countdown (limit : float) (i : Z) (tr : list Event) : LoopResult
  by wf (Z.to_nat (INT_MAX - i)) lt :=
  countdown limit i tr with (int_to_double i <? limit)%float => {
    | false := LoopDone tr;
    | true with Z_lt_dec i INT_MAX => {
        | left _ := countdown limit (i + 1) (tr ++ countdown_body limit i);
        | right _ := LoopOverflow (tr ++ countdown_body limit i) } }.
Proof. lia. Qed.

Definition run_countdown (limit : float) : M unit := fun st =>
  match countdown limit 0 [] with
  | LoopDone tr => Returned tt st tr
  | LoopOverflow tr => Faulted SignedOverflow tr
  end.

(** [RRBotModularJoint::on_activate]. *)
Definition on_activate : M CallbackReturn :=
  RCLCPP_INFO MsgStarting;;
  limit ← gets hw_start_sec_;
  run_countdown limit;;
  s ← gets hw_joint_state_;
  (if PrimFloat.is_nan s
   then modify (set_hw_joint_state_ 0%float);; modify (set_hw_joint_command_ 0%float)
   else mret tt);;
  RCLCPP_INFO MsgStarted;;
  mret SUCCESS.

(** [RRBotModularJoint::on_deactivate]. *)
Definition on_deactivate : M CallbackReturn :=
  RCLCPP_INFO MsgStopping;;
  limit ← gets hw_stop_sec_;
  run_countdown limit;;
  RCLCPP_INFO MsgStopped;;
  mret SUCCESS.

(** ** Exported interfaces *)

(** The member a handle points to ([&hw_joint_state_], [&hw_joint_command_]). *)
Inductive Member := HwJointState | HwJointCommand.

(** [hardware_interface::StateInterface] and [CommandInterface]: a joint
    name, an interface name and a pointer to the value. *)
Record Handle := {
  handle_name : string;
  handle_interface : string;
  handle_value : Member
}.

(** [RRBotModularJoint::export_state_interfaces]. *)
Definition export_state_interfaces : M (list Handle) :=
  let state_interfaces := [] in
  joint ← joint0;
  let state_interfaces :=
    state_interfaces ++ [ {| handle_name := name joint;
                             handle_interface := HW_IF_POSITION;
                             handle_value := HwJointState |} ] in
  mret state_interfaces.

(** [RRBotModularJoint::export_command_interfaces]. *)
Definition export_command_interfaces : M (list Handle) :=
  let command_interfaces := [] in
  joint ← joint0;
  let command_interfaces :=
    command_interfaces ++ [ {| handle_name := name joint;
                               handle_interface := HW_IF_POSITION;
                               handle_value := HwJointCommand |} ] in
  mret command_interfaces.

(** ** Initialisation *)

#[global] Instance CallbackReturn_eq_dec : EqDecision CallbackReturn.
Proof. solve_decision. Defined.

(** What a call of [std::stod] amounts to. *)
Inductive StodResult :=
  | Parsed (v : float)
  | StodInvalidArgument
  | StodOutOfRange.

Section Init.

(** [std::stod] and the base class's [on_init] belong to the C++ library
    and to the framework. *)
Variable stod : string -> StodResult.
Variable ActuatorInterface_on_init : HardwareInfo -> CallbackReturn.

(** [hardware_interface::ActuatorInterface::on_init(info)]: the framework
    stores the description in [info_]. *)
Definition base_on_init (info : HardwareInfo) : M CallbackReturn :=
  modify (set_info_ info);;
  mret (ActuatorInterface_on_init info).

(** [info_.hardware_parameters[key]]: [operator[]] of the map adds the key
    with an empty string when it is absent. *)
Definition hardware_parameter (key : string) : M string :=
  info ← gets info_;
  match hardware_parameters info !! key with
  | Some v => mret v
  | None =>
      modify (set_info_ {| hardware_parameters := <[key := ""]> (hardware_parameters info);
                           joints := joints info |});;
      mret ""
  end.

Definition call_stod (s : string) : M float :=
  match stod s with
  | Parsed v => mret v
  | StodInvalidArgument => fault InvalidArgument
  | StodOutOfRange => fault OutOfRange
  end.

(** The four checks on the first joint, each with its early return. *)
Definition check_interfaces (joint : ComponentInfo) : M CallbackReturn :=
  if decide (length (command_interfaces joint) ≠ 1%nat) then
    RCLCPP_FATAL (MsgCommandCount (name joint) (length (command_interfaces joint)));;
    mret ERROR
  else
  c ← at0 (command_interfaces joint);
  if decide (if_name c ≠ HW_IF_POSITION) then
    RCLCPP_FATAL (MsgCommandKind (name joint) (if_name c));;
    mret ERROR
  else
  if decide (length (state_interfaces joint) ≠ 1%nat) then
    RCLCPP_FATAL (MsgStateCount (name joint) (length (state_interfaces joint)));;
    mret ERROR
  else
  s ← at0 (state_interfaces joint);
  if decide (if_name s ≠ HW_IF_POSITION) then
    RCLCPP_FATAL (MsgStateKind (name joint) (if_name s));;
    mret ERROR
  else
  mret SUCCESS.

(** [RRBotModularJoint::on_init]. *)
Definition on_init (info : HardwareInfo) : M CallbackReturn :=
  r ← base_on_init info;
  if decide (r ≠ SUCCESS) then mret ERROR else
  v ← hardware_parameter "example_param_hw_start_duration_sec" ≫= call_stod;
  modify (set_hw_start_sec_ v);;
  v ← hardware_parameter "example_param_hw_stop_duration_sec" ≫= call_stod;
  modify (set_hw_stop_sec_ v);;
  v ← hardware_parameter "example_param_hw_slowdown" ≫= call_stod;
  modify (set_hw_slowdown_ v);;
  modify (set_hw_joint_state_ nan);;
  modify (set_hw_joint_command_ nan);;
  joint ← joint0;
  check_interfaces joint.

End Init.

(** ** Auxiliary definitions for the statements *)

(** The value [operator[]] yields for [key]: the stored string, or the empty
    string it has just inserted. *)
Definition param_value (info : HardwareInfo) (key : string) : string :=
  default "" (hardware_parameters info !! key).

(** The description after [hardware_parameters[key]] has been evaluated. *)
Definition touch (key : string) (info : HardwareInfo) : HardwareInfo :=
  match hardware_parameters info !! key with
  | Some _ => info
  | None => {| hardware_parameters := <[key := ""]> (hardware_parameters info);
               joints := joints info |}
  end.

(** The object [on_init] has built when it reaches the checks on the joint. *)
Definition initialised (info : HardwareInfo) (start stop slowdown : float) :
    RRBotModularJoint :=
  {| info_ := touch "example_param_hw_slowdown"
                (touch "example_param_hw_stop_duration_sec"
                   (touch "example_param_hw_start_duration_sec" info));
     hw_start_sec_ := start; hw_stop_sec_ := stop; hw_slowdown_ := slowdown;
     hw_joint_state_ := nan; hw_joint_command_ := nan |}.

Definition init_keys : list string :=
  ["example_param_hw_start_duration_sec";
   "example_param_hw_stop_duration_sec";
   "example_param_hw_slowdown"].

Definition parses (stod : string -> StodResult) (s : string) : bool :=
  match stod s with Parsed _ => true | _ => false end.

(** What [on_init] relies on without checking it: the three parameters are
    converted by [stod] and there is a first joint. *)
Definition init_precondition (stod : string -> StodResult) (info : HardwareInfo) : bool :=
  forallb (fun key => parses stod (param_value info key)) init_keys
  && match joints info with [] => false | _ :: _ => true end.

(** The shape the specification asks of the joint: exactly one command
    interface and exactly one state interface, both of kind "position". *)
Definition joint_shape_ok (joint : ComponentInfo) : bool :=
  match command_interfaces joint, state_interfaces joint with
  | [c], [s] => bool_decide (if_name c = "position") && bool_decide (if_name s = "position")
  | _, _ => false
  end.

(** The first of the four checks of [on_init] that the joint fails, as the
    fatal message it logs. *)
Definition shape_violation (joint : ComponentInfo) : option Message :=
  match command_interfaces joint with
  | [c] =>
      if decide (if_name c = "position") then
        match state_interfaces joint with
        | [s] =>
            if decide (if_name s = "position") then None
            else Some (MsgStateKind (name joint) (if_name s))
        | l => Some (MsgStateCount (name joint) (length l))
        end
      else Some (MsgCommandKind (name joint) (if_name c))
  | l => Some (MsgCommandCount (name joint) (length l))
  end.

Definition fatal_log (violation : option Message) : list Event :=
  match violation with
  | Some m => [Fatal m]
  | None => []
  end.

Fixpoint count (p : Event -> bool) (tr : list Event) : nat :=
  match tr with
  | [] => 0
  | ev :: tr => (if p ev then 1 else 0) + count p tr
  end.

Definition is_sleep (ev : Event) : bool :=
  match ev with SleepFor 1 => true | _ => false end.

Definition is_countdown_log (ev : Event) : bool :=
  match ev with Info (MsgSecondsLeft _) => true | _ => false end.

(** The binary64 number an [int] in [0, INT_MAX] converts to. *)
Definition int_SF (i : Z) : spec_float :=
  match i with
  | Zpos p => S754_finite false (Pos.iter xO p (Z.to_pos (53 - Zpos (Pos.size p))))
                (Zpos (Pos.size p) - 53)
  | _ => S754_zero false
  end.

(** ** Exact values of doubles *)

(** The value of a finite binary64 number in units of 2^-1074, the smallest
    positive double: every finite double is an integer number of them.  The
    value is 0 for zeros, and for the numbers that are not finite. *)
Definition SFval (x : spec_float) : Z :=
  match x with
  | S754_finite s m e => cond_Zopp s (Zpos m * 2 ^ (e + 1074))
  | _ => 0
  end.

Definition SFfinite (x : spec_float) : bool :=
  match x with
  | S754_zero _ | S754_finite _ _ _ => true
  | _ => false
  end.

(** The exact value of a double in units of 2^-1074 (0 when not finite). *)
Definition units (x : float) : Z := SFval (Prim2SF x).

(** Position of the fraction [N / D] in the unit interval above the integer
    [m], as a rounding location. *)
Definition inb (m : Z) (l : location) (N D : Z) : Prop :=
  match l with
  | loc_Exact => N = m * D
  | loc_Inexact Lt => m * D < N /\ 2 * N < (2 * m + 1) * D
  | loc_Inexact Eq => 2 * N = (2 * m + 1) * D
  | loc_Inexact Gt => (2 * m + 1) * D < 2 * N /\ N < (m + 1) * D
  end.

(** [r], of sign [sx], is a rounding to nearest of the magnitude [P / Q]
    (in units of 2^-1074): [lo] and [lo + u] are its two neighbours, between
    which there is no double. *)
Definition rounded (r : spec_float) (sx : bool) (P Q : Z) : Prop :=
  exists lo u R,
    0 < u /\ 0 <= lo /\
    lo * Q <= P < (lo + u) * Q /\
    (R = lo \/ R = lo + u) /\
    Z.abs (R * Q - P) <= Z.abs (lo * Q - P) /\
    Z.abs (R * Q - P) <= Z.abs ((lo + u) * Q - P) /\
    (forall mf ef, canonical_mantissa prec emax mf ef = true ->
       Zpos mf * 2 ^ (ef + 1074) <= lo \/ lo + u <= Zpos mf * 2 ^ (ef + 1074)) /\
    (lo = 0 /\ u = 1 \/ u <= lo) /\
    (r = S754_infinity sx /\ 0 < R
     \/ r = S754_zero sx /\ R = 0
     \/ exists mr er, r = S754_finite sx mr er /\ Zpos mr * 2 ^ (er + 1074) = R).

(** [r] is, among the finite doubles, one of the nearest to the integer [X]
    (in units of 2^-1074), and its error is at most half of [|X|]. *)
Definition nearest (r : spec_float) (X : Z) : Prop :=
  (forall f, valid_binary f = true -> SFfinite f = true ->
     Z.abs (SFval r - X) <= Z.abs (SFval f - X))
  /\ 2 * Z.abs (SFval r - X) <= Z.abs X.

(** The spacing of the doubles at [x], in units of 2^-1074: the weight of
    the last bit of [x] (the smallest positive double at zero). *)
Definition ulp (x : float) : Z :=
  match Prim2SF x with
  | S754_finite _ _ e => 2 ^ (e + 1074)
  | _ => 1
  end.

(** The largest finite double, in units of 2^-1074. *)
Definition max_units : Z := (2 ^ 53 - 1) * 2 ^ 2045.

(** When a rounding to nearest exceeds the magnitude it rounds, it exceeds
    it by less than half of it. *)
Definition above (r : spec_float) (X : Z) : Prop :=
  Z.abs X < Z.abs (SFval r) -> 2 * (Z.abs (SFval r) - Z.abs X) < Z.abs X.

(** ** Repeated cycles, countdown summaries and call sequences *)

(** [n] consecutive calls of [read]: [n] control cycles during which no
    controller rewrites the command. *)
Fixpoint read_cycles (n : nat) : M unit :=
  match n with
  | O => mret tt
  | S n => read;; read_cycles n
  end.

(** The joint state after [n] consecutive reads with the command [c] and
    the slowdown [d]. *)
Fixpoint simulate_cycles (n : nat) (s c d : float) : float :=
  match n with
  | O => s
  | S n => simulate_cycles n (simulate s c d) c d
  end.

(** The least number of whole seconds that covers a duration: the duration
    rounded up, 0 when it is negative (or not finite). *)
Definition ceil_seconds (x : float) : Z := Z.max 0 (- ((- units x) / 2 ^ 1074)).

(** The remaining times that the countdown lines of a trace report. *)
Definition seconds_left (tr : list Event) : list float :=
  flat_map (fun ev => match ev with Info (MsgSecondsLeft v) => [v] | _ => [] end) tr.

(** The exception a result of [stod] stands for. *)
Definition stod_fault (r : StodResult) : option Fault :=
  match r with
  | Parsed _ => None
  | StodInvalidArgument => Some InvalidArgument
  | StodOutOfRange => Some OutOfRange
  end.

(** What the controller manager does with the object once it is
    initialised: it calls the member functions, and it stores values
    through the pointers that the exported handles carry. *)
Inductive Call :=
  | CallExportState
  | CallExportCommand
  | CallActivate
  | CallDeactivate
  | CallRead
  | CallWrite
  | CallStore (m : Member) (v : float).

Definition store (m : Member) (v : float) : M unit :=
  match m with
  | HwJointState => modify (set_hw_joint_state_ v)
  | HwJointCommand => modify (set_hw_joint_command_ v)
  end.

Definition call (c : Call) : M unit :=
  match c with
  | CallExportState => export_state_interfaces;; mret tt
  | CallExportCommand => export_command_interfaces;; mret tt
  | CallActivate => on_activate;; mret tt
  | CallDeactivate => on_deactivate;; mret tt
  | CallRead => read;; mret tt
  | CallWrite => write;; mret tt
  | CallStore m v => store m v
  end.

Fixpoint calls (cs : list Call) : M unit :=
  match cs with
  | [] => mret tt
  | c :: cs => call c;; calls cs
  end.

(** The members that only [on_init] assigns. *)
Definition same_configuration (st st' : RRBotModularJoint) : Prop :=
  info_ st' = info_ st
  /\ hw_start_sec_ st' = hw_start_sec_ st
  /\ hw_stop_sec_ st' = hw_stop_sec_ st
  /\ hw_slowdown_ st' = hw_slowdown_ st.

Definition too_long (limit : float) : bool := (int_to_double INT_MAX <? limit)%float.

(** ** Sample objects *)

Definition sample_joint : ComponentInfo :=
  {| name := "joint1";
     command_interfaces := [ {| if_name := "position" |} ];
     state_interfaces := [ {| if_name := "position" |} ] |}.

Definition sample_state (start stop slowdown s c : float) : RRBotModularJoint :=
  {| info_ := {| hardware_parameters := ∅; joints := [sample_joint] |};
     hw_start_sec_ := start; hw_stop_sec_ := stop; hw_slowdown_ := slowdown;
     hw_joint_state_ := s; hw_joint_command_ := c |}.

Definition sample_info : HardwareInfo :=
  {| hardware_parameters :=
       {[ "example_param_hw_start_duration_sec" := "2.0";
          "example_param_hw_stop_duration_sec" := "3.0";
          "example_param_hw_slowdown" := "100" ]};
     joints := [sample_joint] |}.

(** [std::stod] on the strings the examples use ("2.0", "3.0", "100" and the
    empty string, which it rejects).  The examples never apply it to another
    string, and no theorem depends on it. *)
Definition stod_sample (s : string) : StodResult :=
  if decide (s = "2.0") then Parsed 2
  else if decide (s = "3.0") then Parsed 3
  else if decide (s = "100") then Parsed 100
  else StodInvalidArgument.

(** The framework's [ActuatorInterface::on_init] returns [SUCCESS]. *)
Definition base_sample (_ : HardwareInfo) : CallbackReturn := SUCCESS.

(** A description whose joint has two command interfaces. *)
Definition info_two_command_interfaces : HardwareInfo :=
  {| hardware_parameters := hardware_parameters sample_info;
     joints := [ {| name := "joint1";
                    command_interfaces := [ {| if_name := "position" |};
                                            {| if_name := "position" |} ];
                    state_interfaces := [ {| if_name := "position" |} ] |} ] |}.

(** A description with a well-formed joint and no hardware parameter. *)
Definition info_without_parameters : HardwareInfo :=
  {| hardware_parameters := ∅; joints := [sample_joint] |}.

Example ceil_seconds_sample :
  ceil_seconds 2.5 = 3 /\ ceil_seconds 2 = 2 /\ ceil_seconds (-1.5) = 0
  /\ ceil_seconds nan = 0 /\ ceil_seconds 0x1p-1074 = 1.
Proof. repeat split; vm_compute; reflexivity. Qed.

Example read_sample :
  read (sample_state 2 3 100 0 1) =
  Returned OK (sample_state 2 3 100 0x1.47ae147ae147bp-7 1)
    [Info MsgReading; Info (MsgGotState 0x1.47ae147ae147bp-7 "joint1"); Info MsgRead].
Proof. vm_compute. reflexivity. Qed.

Example activate_sample :
  on_activate (sample_state 2 3 100 nan nan) =
  Returned SUCCESS (sample_state 2 3 100 0 0)
    [Info MsgStarting; SleepFor 1; Info (MsgSecondsLeft 2);
     SleepFor 1; Info (MsgSecondsLeft 1); Info MsgStarted].
Proof. reflexivity. Qed.

Example init_sample :
  exists st tr,
    on_init stod_sample base_sample sample_info (sample_state 0 0 0 0 0) = Returned SUCCESS st tr
    /\ hw_start_sec_ st = 2%float /\ hw_stop_sec_ st = 3%float /\ hw_slowdown_ st = 100%float
    /\ tr = [].
Proof. eexists _, _. vm_compute. repeat split; reflexivity. Qed.

(** * Facts about binary64 arithmetic *)

Module Double.

(** *** Conversion of small integers *)

Lemma digits2_size p : digits2_pos p = Pos.size p.
Proof. induction p; simpl; congruence. Qed.

Lemma digits2_iter_xO k p : digits2_pos (Pos.iter xO p k) = (digits2_pos p + k)%positive.
Proof.
  induction k using Pos.peano_ind.
  - simpl. lia.
  - rewrite Pos.iter_succ. simpl. rewrite IHk. lia.
Qed.

Lemma iter_xO_value k p : Zpos (Pos.iter xO p k) = Zpos p * 2 ^ Zpos k.
Proof.
  induction k using Pos.peano_ind.
  - simpl. lia.
  - rewrite Pos.iter_succ. rewrite Pos2Z.inj_xO, IHk, Pos2Z.inj_succ, Z.pow_succ_r by lia. lia.
Qed.

Lemma size_bound p : Zpos p < 2 ^ 31 -> Zpos (Pos.size p) <= 31.
Proof.
  intros H. destruct (Z_le_gt_dec (Zpos (Pos.size p)) 31) as [|G]; [assumption|exfalso].
  pose proof (Pos.size_le p) as L.
  assert (2 ^ 32 <= 2 ^ Zpos (Pos.size p)) by (apply Z.pow_le_mono_r; lia).
  assert (Zpos (2 ^ Pos.size p) = 2 ^ Zpos (Pos.size p)) by (rewrite Pos2Z.inj_pow; reflexivity).
  lia.
Qed.


Lemma round_aux_canonical sx m e :
  fexp prec emax (Zpos (digits2_pos m) + e) = e ->
  e <= emax - prec ->
  binary_round_aux prec emax sx (Zpos m) e loc_Exact = S754_finite sx m e.
Proof.
  intros C L. unfold binary_round_aux, shr_fexp.
  cbn [Zdigits2]. rewrite C, Z.sub_diag.
  cbn [shr shr_record_of_loc shr_m loc_of_shr_record round_nearest_even Zdigits2].
  rewrite C, Z.sub_diag. cbn [shr shr_record_of_loc shr_m].
  apply Z.leb_le in L. rewrite L. reflexivity.
Qed.

Lemma normalize_small p :
  Zpos p < 2 ^ 31 ->
  binary_normalize prec emax (Zpos p) 0 false = int_SF (Zpos p).
Proof.
  intros H. pose proof (size_bound p H) as B. rewrite <- digits2_size in B.
  unfold binary_normalize, binary_round, int_SF. rewrite <- !(digits2_size p).
  remember (digits2_pos p) as d eqn:Ed.
  assert (F : fexp prec emax (Z.pos d + 0) = Zpos d - 53).
  { unfold fexp, SpecFloat.emin, prec, emax. lia. }
  rewrite F. unfold shl_align.
  destruct (Z.pos d - 53 - 0) eqn:E; try lia.
  assert (Ep : p0 = Z.to_pos (53 - Z.pos d)) by lia.
  remember (Z.to_pos (53 - Z.pos d)) as k eqn:Ek. subst p0.
  apply round_aux_canonical.
  - rewrite digits2_iter_xO, <- Ed. unfold fexp, SpecFloat.emin, prec, emax. lia.
  - unfold emax, prec. lia.
Qed.

Lemma int_to_double_spec i :
  0 <= i < 2 ^ 31 ->
  Prim2SF (of_uint63 (Uint63.of_Z i)) = int_SF i.
Proof.
  intros H. rewrite FloatAxioms.of_uint63_spec, Uint63.of_Z_spec.
  rewrite Z.mod_small by (change Uint63.wB with (2 ^ 63); lia).
  destruct i as [|p|p]; [reflexivity| |lia].
  apply normalize_small. lia.
Qed.

Lemma size_pow p : 2 ^ (Zpos (Pos.size p) - 1) <= Zpos p < 2 ^ Zpos (Pos.size p).
Proof.
  pose proof (Pos.size_le p) as L. pose proof (Pos.size_gt p) as G.
  assert (E : Zpos (2 ^ Pos.size p) = 2 ^ Zpos (Pos.size p)) by (rewrite Pos2Z.inj_pow; reflexivity).
  assert (2 ^ Zpos (Pos.size p) = 2 * 2 ^ (Zpos (Pos.size p) - 1)).
  { rewrite <- Z.pow_succ_r by lia. f_equal. lia. }
  lia.
Qed.

Lemma size_mono p q : (p <= q)%positive -> Zpos (Pos.size p) <= Zpos (Pos.size q).
Proof.
  intros H. destruct (Z_le_gt_dec (Zpos (Pos.size p)) (Zpos (Pos.size q))) as [|G]; [assumption|exfalso].
  pose proof (size_pow p). pose proof (size_pow q).
  assert (2 ^ Zpos (Pos.size q) <= 2 ^ (Zpos (Pos.size p) - 1)) by (apply Z.pow_le_mono_r; lia).
  lia.
Qed.

Lemma int_SF_ltb i n :
  0 <= i < 2 ^ 31 -> 0 <= n < 2 ^ 31 ->
  SFltb (int_SF i) (int_SF n) = (i <? n).
Proof.
  intros Hi Hn. destruct i as [|p|p], n as [|q|q]; try lia; try reflexivity.
  unfold int_SF, SFltb, SFcompare.
  assert (Bp : Zpos (Pos.size p) <= 31) by (apply size_bound; lia).
  assert (Bq : Zpos (Pos.size q) <= 31) by (apply size_bound; lia).
  destruct (Z.compare_spec (Zpos (Pos.size p) - 53) (Zpos (Pos.size q) - 53)) as [E|L|G].
  - assert (Es : Pos.size p = Pos.size q) by lia. rewrite Es.
    change (Pos.compare_cont Eq ?a ?b) with (Pos.compare a b).
    rewrite Pos2Z.inj_compare, !iter_xO_value.
    set (k := 2 ^ Z.pos (Z.to_pos (53 - Z.pos (Pos.size q)))).
    assert (0 < k) by (apply Z.pow_pos_nonneg; lia).
    clearbody k.
    destruct (Z.compare_spec (Zpos p * k) (Zpos q * k)); destruct (Z.ltb_spec (Zpos p) (Zpos q)); try reflexivity; nia.
  - destruct (Z.ltb_spec (Zpos p) (Zpos q)) as [|Q]; [reflexivity|].
    assert (q <= p)%positive by lia. pose proof (size_mono q p ltac:(assumption)). lia.
  - destruct (Z.ltb_spec (Zpos p) (Zpos q)) as [Q|]; [|reflexivity].
    assert (p <= q)%positive by lia. pose proof (size_mono p q ltac:(assumption)). lia.
Qed.

Lemma int_SF_below i m e :
  0 <= i < 2 ^ 31 -> -21 <= e ->
  SFltb (int_SF i) (S754_finite false m e) = true.
Proof.
  intros Hi He. destruct i as [|p|p]; try lia; [reflexivity|].
  unfold int_SF, SFltb, SFcompare.
  assert (Bp : Zpos (Pos.size p) <= 31) by (apply size_bound; lia).
  destruct (Z.compare_spec (Zpos (Pos.size p) - 53) e); try reflexivity; lia.
Qed.

(** *** Classification of a double by its specification *)
Lemma SFeqb_refl x : SFeqb x x = match x with S754_nan => false | _ => true end.
Proof.
  destruct x as [s|s| |s m e]; try (destruct s; reflexivity); try reflexivity.
  unfold SFeqb, SFcompare. rewrite Z.compare_refl.
  change (Pos.compare_cont Eq m m) with (Pos.compare m m). rewrite Pos.compare_refl.
  destruct s; reflexivity.
Qed.

Lemma is_nan_spec x : is_nan x = match Prim2SF x with S754_nan => true | _ => false end.
Proof.
  unfold is_nan. rewrite FloatAxioms.eqb_spec, SFeqb_refl. destruct (Prim2SF x); reflexivity.
Qed.

Lemma is_infinity_spec x :
  is_infinity x = match Prim2SF x with S754_infinity _ => true | _ => false end.
Proof.
  unfold is_infinity. rewrite FloatAxioms.eqb_spec, FloatAxioms.abs_spec.
  change (Prim2SF infinity) with (S754_infinity false).
  destruct (Prim2SF x) as [s|s| |s m e]; reflexivity.
Qed.

Lemma is_finite_spec x :
  is_finite x = match Prim2SF x with S754_zero _ | S754_finite _ _ _ => true | _ => false end.
Proof.
  unfold is_finite. rewrite is_nan_spec, is_infinity_spec. destruct (Prim2SF x); reflexivity.
Qed.

Lemma is_zero_spec x :
  is_zero x = match Prim2SF x with S754_zero _ => true | _ => false end.
Proof.
  unfold is_zero. rewrite FloatAxioms.eqb_spec. change (Prim2SF zero) with (S754_zero false).
  destruct (Prim2SF x) as [s|s| |s m e]; try reflexivity; destruct s; reflexivity.
Qed.

Lemma SFeqb_finite_eq x s m e :
  SFeqb x (S754_finite s m e) = true -> x = S754_finite s m e.
Proof.
  destruct x as [sx|sx| |sx mx ex]; unfold SFeqb, SFcompare.
  - destruct s; discriminate.
  - destruct sx; discriminate.
  - discriminate.
  - destruct sx, s; try discriminate.
    + destruct (Z.compare_spec ex e); try discriminate.
      change (Pos.compare_cont Eq mx m) with (Pos.compare mx m).
      destruct (Pos.compare_spec mx m); try discriminate. intros _. congruence.
    + destruct (Z.compare_spec ex e); try discriminate.
      change (Pos.compare_cont Eq mx m) with (Pos.compare mx m).
      destruct (Pos.compare_spec mx m); try discriminate. intros _. congruence.
Qed.

Lemma SFsub_diag s m e : SFsub prec emax (S754_finite s m e) (S754_finite s m e) = S754_zero false.
Proof. unfold SFsub. rewrite Z.sub_diag. reflexivity. Qed.

Lemma SFsub_equal c s :
  SFeqb c s = true ->
  match s with S754_zero _ | S754_finite _ _ _ => True | _ => False end ->
  exists b, SFsub prec emax c s = S754_zero b.
Proof.
  intros E F. destruct s as [ss|ss| |ss ms es]; try contradiction.
  - destruct c as [sc|sc| |sc mc ec].
    + destruct sc, ss; eexists; reflexivity.
    + destruct sc; discriminate.
    + discriminate.
    + destruct sc; discriminate.
  - apply SFeqb_finite_eq in E. subst c. exists false. apply SFsub_diag.
Qed.

Lemma SFdiv_zero b d :
  match d with S754_nan | S754_zero _ => False | _ => True end ->
  exists b', SFdiv prec emax (S754_zero b) d = S754_zero b'.
Proof. destruct d; try contradiction; intros _; eexists; reflexivity. Qed.

Lemma SFadd_zero_r s b :
  match s with S754_zero _ | S754_finite _ _ _ => True | _ => False end ->
  SFeqb (SFadd prec emax s (S754_zero b)) s = true /\
  (match s with S754_zero _ => False | _ => True end -> SFadd prec emax s (S754_zero b) = s).
Proof.
  destruct s as [ss|ss| |ss ms es]; try contradiction; intros _.
  - split; [destruct ss, b; reflexivity | contradiction].
  - cbn [SFadd]. rewrite SFeqb_refl. split; reflexivity.
Qed.

Lemma simulate_equilibrium s c d :
  is_finite s = true -> (c =? s)%float = true ->
  is_nan d = false -> PrimFloat.is_zero d = false ->
  (simulate s c d =? s)%float = true /\
  (PrimFloat.is_zero s = false -> simulate s c d = s).
Proof.
  rewrite is_finite_spec, is_nan_spec, !is_zero_spec, !FloatAxioms.eqb_spec. intros Fs E Nd Zd.
  unfold simulate. rewrite FloatAxioms.add_spec, FloatAxioms.div_spec, FloatAxioms.sub_spec.
  destruct (SFsub_equal (Prim2SF c) (Prim2SF s) E) as [b Hb].
  { destruct (Prim2SF s); try discriminate; exact I. }
  unfold SF64add, SF64div, SF64sub. rewrite Hb.
  destruct (SFdiv_zero b (Prim2SF d)) as [b' Hb'].
  { destruct (Prim2SF d); try discriminate; exact I. }
  rewrite Hb'.
  destruct (SFadd_zero_r (Prim2SF s) b') as [H1 H2].
  { destruct (Prim2SF s); try discriminate; exact I. }
  split; [exact H1|]. intros Zs. apply Prim2SF_inj.
  rewrite FloatAxioms.add_spec, FloatAxioms.div_spec, FloatAxioms.sub_spec. unfold SF64add, SF64div, SF64sub. rewrite Hb, Hb'.
  apply H2. destruct (Prim2SF s); try discriminate; exact I.
Qed.

(** *** The counter of the countdown loops as a double *)

Lemma int_to_double_ltb i n :
  0 <= i <= INT_MAX -> 0 <= n <= INT_MAX ->
  (int_to_double i <? int_to_double n)%float = (i <? n).
Proof.
  unfold INT_MAX, int_to_double. intros Hi Hn.
  rewrite FloatAxioms.ltb_spec, !int_to_double_spec by lia.
  apply int_SF_ltb; lia.
Qed.

(** A positive double whose exponent is at least -21 is at least 2^31. *)
Lemma int_to_double_below i limit m e :
  0 <= i <= INT_MAX ->
  Prim2SF limit = S754_finite false m e -> -21 <= e ->
  (int_to_double i <? limit)%float = true.
Proof.
  unfold INT_MAX, int_to_double. intros Hi P He.
  rewrite FloatAxioms.ltb_spec, int_to_double_spec, P by lia.
  apply int_SF_below; lia.
Qed.

(** *** Rounding to nearest *)

Lemma loc_of_record_of_loc m l :
  loc_of_shr_record (shr_record_of_loc m l) = l /\ shr_m (shr_record_of_loc m l) = m.
Proof. destruct l as [|[ | | ]]; split; reflexivity. Qed.

Lemma shr_1_inb mrs N D :
  0 <= shr_m mrs -> 0 < D ->
  inb (shr_m mrs) (loc_of_shr_record mrs) N D ->
  inb (shr_m (shr_1 mrs)) (loc_of_shr_record (shr_1 mrs)) N (2 * D)
  /\ shr_m (shr_1 mrs) = shr_m mrs / 2.
Proof.
  destruct mrs as [m r s]. cbn [shr_m]. intros Hm HD H.
  destruct m as [|p|p]; [| |lia].
  - destruct r, s; cbn [shr_1 shr_m loc_of_shr_record orb inb] in *; split; try reflexivity; lia.
  - destruct p as [q|q|].
    + assert (E : Zpos q~1 = 2 * Zpos q + 1) by reflexivity.
      assert (Hd : Zpos q~1 / 2 = Zpos q).
      { rewrite E. symmetry. apply (Z.div_unique _ _ _ 1); lia. }
      destruct r, s; cbn [shr_1 shr_m loc_of_shr_record orb inb] in *;
        (split; [rewrite E in H; lia | symmetry; exact Hd]).
    + assert (E : Zpos q~0 = 2 * Zpos q) by reflexivity.
      assert (Hd : Zpos q~0 / 2 = Zpos q).
      { rewrite E. symmetry. apply (Z.div_unique _ _ _ 0); lia. }
      destruct r, s; cbn [shr_1 shr_m loc_of_shr_record orb inb] in *;
        (split; [rewrite E in H; lia | symmetry; exact Hd]).
    + destruct r, s; cbn [shr_1 shr_m loc_of_shr_record orb inb] in *;
        (split; [lia | reflexivity]).
Qed.

Lemma pow2_xO p : 2 ^ Zpos p~0 = 2 ^ Zpos p * 2 ^ Zpos p.
Proof.
  replace (Zpos p~0) with (Zpos p + Zpos p) by lia. apply Z.pow_add_r; lia.
Qed.

Lemma pow2_xI p : 2 ^ Zpos p~1 = 2 ^ Zpos p * 2 ^ Zpos p * 2.
Proof.
  replace (Zpos p~1) with (Zpos p + Zpos p + 1) by lia.
  rewrite !Z.pow_add_r by lia. reflexivity.
Qed.

Lemma iter_shr_inb p : forall mrs N D,
  0 <= shr_m mrs -> 0 < D ->
  inb (shr_m mrs) (loc_of_shr_record mrs) N D ->
  inb (shr_m (SpecFloat.iter_pos shr_1 p mrs)) (loc_of_shr_record (SpecFloat.iter_pos shr_1 p mrs)) N
      (2 ^ Zpos p * D)
  /\ shr_m (SpecFloat.iter_pos shr_1 p mrs) = shr_m mrs / 2 ^ Zpos p.
Proof.
  induction p as [p IH|p IH|]; intros mrs N D Hm HD H; cbn [SpecFloat.iter_pos].
  - assert (P : 0 < 2 ^ Zpos p) by (apply Z.pow_pos_nonneg; lia).
    destruct (shr_1_inb mrs N D Hm HD H) as [H1 E1].
    assert (Hm1 : 0 <= shr_m (shr_1 mrs)) by (rewrite E1; apply Z.div_pos; lia).
    destruct (IH _ N (2 * D) Hm1 ltac:(lia) H1) as [H2 E2].
    assert (Hm2 : 0 <= shr_m (SpecFloat.iter_pos shr_1 p (shr_1 mrs))) by (rewrite E2; apply Z.div_pos; lia).
    destruct (IH _ N (2 ^ Zpos p * (2 * D)) Hm2 ltac:(nia) H2) as [H3 E3].
    rewrite pow2_xI. split.
    + replace (2 ^ Zpos p * 2 ^ Zpos p * 2 * D) with (2 ^ Zpos p * (2 ^ Zpos p * (2 * D))) by ring.
      exact H3.
    + rewrite E3, E2, E1, !Z.div_div by lia. f_equal. ring.
  - assert (P : 0 < 2 ^ Zpos p) by (apply Z.pow_pos_nonneg; lia).
    destruct (IH _ N D Hm HD H) as [H2 E2].
    assert (Hm2 : 0 <= shr_m (SpecFloat.iter_pos shr_1 p mrs)) by (rewrite E2; apply Z.div_pos; lia).
    destruct (IH _ N (2 ^ Zpos p * D) Hm2 ltac:(nia) H2) as [H3 E3].
    rewrite pow2_xO. split.
    + replace (2 ^ Zpos p * 2 ^ Zpos p * D) with (2 ^ Zpos p * (2 ^ Zpos p * D)) by ring.
      exact H3.
    + rewrite E3, E2, !Z.div_div by lia. reflexivity.
  - change (2 ^ 1) with 2. apply shr_1_inb; assumption.
Qed.

(** [shr] by a (possibly non-positive) number of bits. *)
Lemma shr_inb mrs e n N D :
  0 <= shr_m mrs -> 0 < D ->
  inb (shr_m mrs) (loc_of_shr_record mrs) N D ->
  let k := Z.max n 0 in
  let r := shr mrs e n in
  inb (shr_m (fst r)) (loc_of_shr_record (fst r)) N (2 ^ k * D)
  /\ shr_m (fst r) = shr_m mrs / 2 ^ k
  /\ snd r = e + k.
Proof.
  intros Hm HD H. destruct n as [|p|p]; cbn [shr fst snd Z.max Z.compare].
  - change (2 ^ 0) with 1. rewrite Z.mul_1_l, Z.div_1_r, Z.add_0_r. auto.
  - replace (Z.max (Zpos p) 0) with (Zpos p) by lia.
    destruct (iter_shr_inb p mrs N D Hm HD H). auto.
  - replace (Z.max (Zneg p) 0) with 0 by lia.
    change (2 ^ 0) with 1. rewrite Z.mul_1_l, Z.div_1_r, Z.add_0_r. auto.
Qed.

Lemma Zdigits2_bounds m :
  0 < m -> 0 < Zdigits2 m /\ 2 ^ (Zdigits2 m - 1) <= m < 2 ^ Zdigits2 m.
Proof.
  destruct m as [|p|p]; try lia. intros _. cbn [Zdigits2]. rewrite digits2_size.
  split; [lia | apply size_pow].
Qed.

Lemma fexp64 e : fexp prec emax e = Z.max (e - 53) (-1074).
Proof. reflexivity. Qed.

Lemma binary_round_aux_correct sx mx ex lx N D :
  0 <= mx -> 0 < D -> inb mx lx N D ->
  ex <= fexp prec emax (Zdigits2 mx + ex) ->
  let e' := fexp prec emax (Zdigits2 mx + ex) in
  let D' := 2 ^ (e' - ex) * D in
  exists m' m'',
    0 <= m' < 2 ^ 53 /\ (-1074 < e' -> 2 ^ 52 <= m') /\
    m' * D' <= N < (m' + 1) * D' /\
    (m'' = m' \/ m'' = m' + 1) /\
    Z.abs (m'' * D' - N) <= Z.abs (m' * D' - N) /\
    Z.abs (m'' * D' - N) <= Z.abs ((m' + 1) * D' - N) /\
    binary_round_aux prec emax sx mx ex lx =
      (if m'' =? 0 then S754_zero sx
       else if m'' =? 2 ^ 53
            then (if e' + 1 <=? 971 then S754_finite sx (2 ^ 52)%positive (e' + 1)
                  else S754_infinity sx)
            else (if e' <=? 971 then S754_finite sx (Z.to_pos m'') e'
                  else S754_infinity sx)).
Proof.
  intros Hm HD H H0 e' D'.
  assert (He' : -1074 <= e') by (unfold e'; rewrite fexp64; lia).
  set (n := e' - ex). assert (Hn : 0 <= n) by (unfold n, e'; lia).
  unfold binary_round_aux, shr_fexp. fold e'. fold n.
  destruct (loc_of_record_of_loc mx lx) as [El Em].
  pose proof (shr_inb (shr_record_of_loc mx lx) ex n N D) as S.
  rewrite Em, El in S. specialize (S Hm HD H). cbv zeta in S.
  replace (Z.max n 0) with n in S by lia.
  destruct (shr (shr_record_of_loc mx lx) ex n) as [mrs1 e1].
  cbn [fst snd] in S. destruct S as (I1 & M1 & E1).
  replace (ex + n) with e' in E1 by (unfold n; lia). subst e1.
  set (m' := shr_m mrs1) in *. set (l' := loc_of_shr_record mrs1) in *.
  change (2 ^ n * D) with D' in I1.
  assert (P2n : 0 < 2 ^ n) by (apply Z.pow_pos_nonneg; lia).
  assert (HD' : 0 < D') by (unfold D'; nia).
  assert (Hm' : 0 <= m') by (rewrite M1; apply Z.div_pos; lia).
  (* bounds on the truncated mantissa *)
  assert (Bu : m' < 2 ^ 53).
  { rewrite M1. destruct (Z.eq_dec mx 0) as [->|NZ]; [rewrite Z.div_0_l by lia; lia|].
    destruct (Zdigits2_bounds mx ltac:(lia)) as (Pd & Ld & Ud).
    apply Z.div_lt_upper_bound; [lia|].
    assert (2 ^ Zdigits2 mx <= 2 ^ (n + 53)).
    { apply Z.pow_le_mono_r; [lia|]. unfold n, e'. rewrite fexp64. lia. }
    rewrite Z.pow_add_r in * by lia. lia. }
  assert (Bl : -1074 < e' -> 2 ^ 52 <= m').
  { intros G. rewrite M1.
    assert (NZ : 0 < mx).
    { destruct (Z.eq_dec mx 0) as [E0|]; [|lia]. exfalso. subst mx.
      unfold e' in *. cbn [Zdigits2] in *. rewrite fexp64 in *. lia. }
    destruct (Zdigits2_bounds mx NZ) as (Pd & Ld & Ud).
    apply Z.div_le_lower_bound; [lia|].
    assert (En : Zdigits2 mx - 1 = n + 52) by (unfold n, e' in *; rewrite fexp64 in *; lia).
    rewrite En, Z.pow_add_r in Ld by lia. lia. }
  set (m'' := round_nearest_even m' l').
  assert (R : (m'' = m' \/ m'' = m' + 1) /\
              m' * D' <= N < (m' + 1) * D' /\
              Z.abs (m'' * D' - N) <= Z.abs (m' * D' - N) /\
              Z.abs (m'' * D' - N) <= Z.abs ((m' + 1) * D' - N)).
  { unfold m'', round_nearest_even. clearbody m' D' l'. clear - I1 HD' Hm'.
    replace ((m' + 1) * D') with (m' * D' + D') by ring.
    destruct l' as [|[ | | ]]; cbn [inb] in I1;
      replace ((2 * m' + 1) * D') with (2 * (m' * D') + D') in I1 by ring;
      replace ((m' + 1) * D') with (m' * D' + D') in I1 by ring.
    - split; [left; reflexivity|]. lia.
    - destruct (Z.even m'); (split; [auto|]);
        replace ((m' + 1) * D') with (m' * D' + D') by ring; lia.
    - split; [left; reflexivity|]. lia.
    - split; [right; reflexivity|].
      replace ((m' + 1) * D') with (m' * D' + D') by ring; lia. }
  destruct R as (R1 & R2 & R3 & R4).
  exists m', m''. repeat (split; [first [assumption | lia]|]).
  (* the second normalisation *)
  assert (Hm'' : 0 <= m'' <= 2 ^ 53) by lia.
  cbn [shr_record_of_loc].
  destruct (Z.eqb_spec m'' 0) as [Z0|NZ0].
  - rewrite Z0. cbn [Zdigits2]. rewrite Z.add_0_l.
    assert (Sh : fexp prec emax e' - e' <= 0) by (rewrite fexp64; lia).
    destruct (fexp prec emax e' - e') eqn:Ef; try lia; reflexivity.
  - destruct (Z.eqb_spec m'' (2 ^ 53)) as [E53|N53].
    + rewrite E53. change (Zdigits2 (2 ^ 53)) with 54.
      assert (Sh : fexp prec emax (54 + e') - e' = 1) by (rewrite fexp64; lia).
      rewrite Sh. cbn [shr SpecFloat.iter_pos shr_1 shr_m]. change (2 ^ 53) with 9007199254740992.
      cbn [shr_1 shr_m]. reflexivity.
    + assert (Hd : Zdigits2 m'' <= 53).
      { destruct (Zdigits2_bounds m'' ltac:(lia)) as (Pd & Ld & Ud).
        destruct (Z_le_gt_dec (Zdigits2 m'') 53) as [|G]; [assumption|exfalso].
        assert (2 ^ 53 <= 2 ^ (Zdigits2 m'' - 1)) by (apply Z.pow_le_mono_r; lia). lia. }
      assert (Sh : fexp prec emax (Zdigits2 m'' + e') - e' <= 0) by (rewrite fexp64; lia).
      destruct (fexp prec emax (Zdigits2 m'' + e') - e') eqn:Ef; try lia;
        cbn [shr shr_m]; destruct m'' as [|q|q]; try lia; reflexivity.
Qed.

Lemma canonical_bounds m e :
  canonical_mantissa prec emax m e = true ->
  -1074 <= e /\ Zpos m < 2 ^ 53 /\ (-1074 < e -> 2 ^ 52 <= Zpos m).
Proof.
  unfold canonical_mantissa. rewrite fexp64, digits2_size. intros C. apply Z.eqb_eq in C.
  pose proof (size_pow m) as [L U].
  split; [lia|]. split.
  - assert (2 ^ Zpos (Pos.size m) <= 2 ^ 53) by (apply Z.pow_le_mono_r; lia). lia.
  - intros G. assert (Zpos (Pos.size m) = 53) by lia.
    replace (Zpos (Pos.size m) - 1) with 52 in L by lia. exact L.
Qed.

Lemma no_float_between m' e' mf ef :
  -1074 <= e' -> 0 <= m' < 2 ^ 53 -> (-1074 < e' -> 2 ^ 52 <= m') ->
  canonical_mantissa prec emax mf ef = true ->
  let u := 2 ^ (e' + 1074) in
  let F := Zpos mf * 2 ^ (ef + 1074) in
  F <= m' * u \/ m' * u + u <= F.
Proof.
  intros He' Hm' Hn C u F. destruct (canonical_bounds mf ef C) as (Hef & Umf & Lmf).
  assert (Pu : 0 < u) by (apply Z.pow_pos_nonneg; lia).
  destruct (Z_le_gt_dec e' ef) as [G|G].
  - assert (EF : F = (Zpos mf * 2 ^ (ef - e')) * u).
    { unfold F, u. rewrite <- Z.mul_assoc, <- Z.pow_add_r by lia. do 2 f_equal. lia. }
    set (k := Zpos mf * 2 ^ (ef - e')) in *. clearbody k. rewrite EF.
    destruct (Z_le_gt_dec k m'); [left; nia | right; nia].
  - left. specialize (Hn ltac:(lia)).
    assert (2 ^ (ef + 1074 + 53) <= 2 ^ (e' + 1074 + 52)) by (apply Z.pow_le_mono_r; lia).
    rewrite !(Z.pow_add_r 2 _ 53), !(Z.pow_add_r 2 _ 52) in H by lia. fold u in H.
    set (a := 2 ^ (ef + 1074)) in *.
    assert (0 < a) by (apply Z.pow_pos_nonneg; lia).
    assert (Zpos mf * a <= 2 ^ 53 * a) by (apply Z.mul_le_mono_nonneg_r; lia).
    assert (2 ^ 52 * u <= m' * u) by (apply Z.mul_le_mono_nonneg_r; lia).
    unfold F. lia.
Qed.

Lemma binary_round_aux_rounded sx mx ex lx N D :
  0 <= mx -> 0 < D -> inb mx lx N D ->
  ex <= fexp prec emax (Zdigits2 mx + ex) ->
  let e' := fexp prec emax (Zdigits2 mx + ex) in
  rounded (binary_round_aux prec emax sx mx ex lx) sx
    (N * 2 ^ (e' + 1074)) (2 ^ (e' - ex) * D).
Proof.
  intros Hm HD H H0 e'.
  destruct (binary_round_aux_correct sx mx ex lx N D Hm HD H H0)
    as (m' & m'' & Bm & Bl & Br & Rc & N1 & N2 & E).
  fold e' in Bl, Br, N1, N2, E |- *.
  assert (He' : -1074 <= e') by (unfold e'; rewrite fexp64; lia).
  set (D' := 2 ^ (e' - ex) * D) in *.
  assert (HD' : 0 < D').
  { unfold D'. assert (0 < 2 ^ (e' - ex)) by (apply Z.pow_pos_nonneg; lia). nia. }
  set (u := 2 ^ (e' + 1074)).
  assert (Pu : 0 < u) by (apply Z.pow_pos_nonneg; lia).
  exists (m' * u), u, (m'' * u).
  split; [exact Pu|]. split; [nia|].
  assert (A1 : m' * u * D' = m' * D' * u) by ring.
  assert (A2 : (m' * u + u) * D' = (m' + 1) * D' * u) by ring.
  assert (A3 : m'' * u * D' - N * u = (m'' * D' - N) * u) by ring.
  assert (A4 : m' * u * D' - N * u = (m' * D' - N) * u) by ring.
  assert (A5 : (m' * u + u) * D' - N * u = ((m' + 1) * D' - N) * u) by ring.
  split; [rewrite A1, A2; nia|].
  split; [destruct Rc as [->| ->]; [left; reflexivity | right; ring]|].
  split; [rewrite A3, A4, !Z.abs_mul, (Z.abs_eq u) by lia; nia|].
  split; [rewrite A3, A5, !Z.abs_mul, (Z.abs_eq u) by lia; nia|].
  split; [intros mf ef C; apply (no_float_between m' e' mf ef He' Bm Bl C)|].
  split.
  { destruct (Z.eq_dec m' 0) as [->|]; [left | right; nia].
    split; [reflexivity|]. unfold u.
    destruct (Z.eq_dec e' (-1074)) as [->|]; [reflexivity|].
    specialize (Bl ltac:(lia)). lia. }
  rewrite E.
  destruct (Z.eqb_spec m'' 0) as [Z0|NZ0]; [right; left; split; [reflexivity | subst; reflexivity]|].
  destruct (Z.eqb_spec m'' (2 ^ 53)) as [E53|N53].
  - destruct (e' + 1 <=? 971); [|left; split; [reflexivity | nia]].
    right; right. eexists _, _. split; [reflexivity|].
    rewrite E53. unfold u. replace (e' + 1 + 1074) with (1 + (e' + 1074)) by lia.
    rewrite Z.pow_add_r by lia. change (2 ^ 1) with 2.
    change (Zpos (2 ^ 52)) with (2 ^ 52). change (2 ^ 53) with (2 ^ 52 * 2). ring.
  - destruct (e' <=? 971); [|left; split; [reflexivity | nia]].
    right; right. eexists _, _. split; [reflexivity|]. rewrite Z2Pos.id by lia. reflexivity.
Qed.

Lemma rounded_scale r sx X Q :
  0 < Q -> rounded r sx (X * Q) Q -> rounded r sx X 1.
Proof.
  intros HQ (lo & u & R & Pu & Hlo & B & Rc & N1 & N2 & NF & LU & Res).
  replace (R * Q - X * Q) with ((R - X) * Q) in N1, N2 by ring.
  replace (lo * Q - X * Q) with ((lo - X) * Q) in N1 by ring.
  replace ((lo + u) * Q - X * Q) with ((lo + u - X) * Q) in N2 by ring.
  rewrite !Z.abs_mul, (Z.abs_eq Q) in N1, N2 by lia.
  exists lo, u, R. rewrite !Z.mul_1_r.
  split; [assumption|]. split; [assumption|]. split; [nia|]. split; [assumption|].
  split; [nia|]. split; [nia|]. auto.
Qed.

Lemma shl_align_spec mx ex e' :
  let r := shl_align mx ex e' in
  snd r = Z.min ex e'
  /\ Zpos (fst r) = Zpos mx * 2 ^ (ex - snd r)
  /\ Zpos (digits2_pos (fst r)) + snd r = Zpos (digits2_pos mx) + ex.
Proof.
  unfold shl_align. destruct (e' - ex) as [|d|d] eqn:E; cbn [fst snd].
  - rewrite Z.sub_diag. change (2 ^ 0) with 1. lia.
  - rewrite Z.sub_diag. change (2 ^ 0) with 1. lia.
  - rewrite iter_xO_value, digits2_iter_xO.
    replace (ex - e') with (Zpos d) by lia. lia.
Qed.

Lemma binary_round_rounded sx m e :
  -1074 <= e ->
  rounded (binary_round prec emax sx m e) sx (Zpos m * 2 ^ (e + 1074)) 1.
Proof.
  intros He. unfold binary_round.
  pose proof (shl_align_spec m e (fexp prec emax (Zpos (digits2_pos m) + e))) as S.
  destruct (shl_align m e (fexp prec emax (Zpos (digits2_pos m) + e))) as [mz ez].
  cbn [fst snd] in S. destruct S as (Ez & Vz & Dz).
  set (eb := fexp prec emax (Zpos (digits2_pos m) + e)) in *.
  assert (Heb : -1074 <= eb) by (unfold eb; rewrite fexp64; lia).
  assert (H0 : ez <= fexp prec emax (Zdigits2 (Zpos mz) + ez)).
  { cbn [Zdigits2]. rewrite Dz. fold eb. lia. }
  pose proof (binary_round_aux_rounded sx (Zpos mz) ez loc_Exact (Zpos mz) 1
                ltac:(lia) ltac:(lia) ltac:(cbn [inb]; lia) H0) as B.
  cbv zeta in B. cbn [Zdigits2] in B. rewrite Dz in B. fold eb in B.
  apply (rounded_scale _ _ _ (2 ^ (eb - ez) * 1)).
  - assert (0 < 2 ^ (eb - ez)) by (apply Z.pow_pos_nonneg; lia). lia.
  - replace (Zpos m * 2 ^ (e + 1074) * (2 ^ (eb - ez) * 1)) with (Zpos mz * 2 ^ (eb + 1074)); [exact B|].
    rewrite Vz, Z.mul_1_r, <- !Z.mul_assoc, <- !Z.pow_add_r by lia. do 2 f_equal. lia.
Qed.

Lemma nearest_exact r X : SFval r = X -> nearest r X.
Proof. intros E. split; [intros f _ _|]; rewrite E; lia. Qed.

Lemma SFval_mag f :
  valid_binary f = true -> SFfinite f = true ->
  SFval f = 0
  \/ exists mf ef, canonical_mantissa prec emax mf ef = true
        /\ (SFval f = Zpos mf * 2 ^ (ef + 1074) \/ SFval f = - (Zpos mf * 2 ^ (ef + 1074))).
Proof.
  destruct f as [s|s| |s m e]; try discriminate; intros V _; [left; reflexivity|].
  right. exists m, e. cbn [valid_binary] in V. unfold bounded in V.
  apply andb_prop in V. destruct V as [C _]. split; [exact C|].
  destruct s; cbn [SFval cond_Zopp]; auto.
Qed.

Lemma rounded_nearest r sx X :
  rounded r sx (Z.abs X) 1 -> X <> 0 -> (sx = true <-> X < 0) ->
  SFfinite r = true -> nearest r X.
Proof.
  intros (lo & u & R & Pu & Hlo & B & Rc & N1 & N2 & NF & LU & Res) NZ Sg Fin.
  rewrite !Z.mul_1_r in *.
  assert (V : SFval r = cond_Zopp sx R).
  { destruct Res as [[-> _]|[[-> ->]|(mr & er & -> & <-)]]; [discriminate| |reflexivity].
    destruct sx; reflexivity. }
  assert (Rel : Z.abs (R - Z.abs X) <= Z.abs X - lo /\ lo + lo >= Z.abs X) by lia.
  split.
  - intros f Vf Ff. rewrite V.
    destruct (SFval_mag f Vf Ff) as [->|(mf & ef & C & Hv)];
      [destruct sx; cbn [cond_Zopp]; lia|].
    destruct (NF mf ef C) as [L|U];
      destruct Hv as [-> | ->]; destruct sx; cbn [cond_Zopp];
      pose proof (Z.pow_pos_nonneg 2 (ef + 1074)); lia.
  - rewrite V. destruct sx; cbn [cond_Zopp]; lia.
Qed.

Lemma binary_normalize_nearest M e :
  -1074 <= e ->
  SFfinite (binary_normalize prec emax M e false) = true ->
  nearest (binary_normalize prec emax M e false) (M * 2 ^ (e + 1074)).
Proof.
  intros He Fin. assert (Pp : 0 < 2 ^ (e + 1074)) by (apply Z.pow_pos_nonneg; lia).
  destruct M as [|m|m]; cbn [binary_normalize] in *.
  - apply nearest_exact. reflexivity.
  - assert (0 < Zpos m * 2 ^ (e + 1074)) by nia.
    apply (rounded_nearest _ false); [|lia| split; [discriminate|lia] |exact Fin].
    rewrite Z.abs_eq by lia. apply binary_round_rounded. exact He.
  - assert (Zneg m * 2 ^ (e + 1074) = - (Zpos m * 2 ^ (e + 1074))) by lia.
    assert (0 < Zpos m * 2 ^ (e + 1074)) by nia.
    apply (rounded_nearest _ true); [|lia| split; [lia|reflexivity] |exact Fin].
    replace (Z.abs (Zneg m * 2 ^ (e + 1074))) with (Zpos m * 2 ^ (e + 1074)) by lia.
    apply binary_round_rounded. exact He.
Qed.

Lemma aligned_value s m e ez :
  -1074 <= ez -> ez <= e ->
  cond_Zopp s (Zpos (fst (shl_align m e ez))) * 2 ^ (ez + 1074) =
  SFval (S754_finite s m e).
Proof.
  intros He Hle. pose proof (shl_align_spec m e ez) as S. cbv zeta in S.
  destruct S as (E1 & E2 & _). rewrite E2, E1. replace (Z.min e ez) with ez by lia.
  cbn [SFval]. replace (e + 1074) with ((e - ez) + (ez + 1074)) by lia.
  rewrite (Z.pow_add_r 2 (e - ez) (ez + 1074)) by lia. destruct s; cbn [cond_Zopp]; ring.
Qed.

Lemma valid_exponent s m e :
  valid_binary (S754_finite s m e) = true -> -1074 <= e.
Proof.
  cbn [valid_binary]. unfold bounded. intros V. apply andb_prop in V.
  destruct V as [C _]. apply (canonical_bounds m e C).
Qed.

Lemma SFadd_nearest x y :
  valid_binary x = true -> valid_binary y = true ->
  SFfinite x = true -> SFfinite y = true ->
  SFfinite (SFadd prec emax x y) = true ->
  nearest (SFadd prec emax x y) (SFval x + SFval y).
Proof.
  intros Vx Vy Fx Fy.
  destruct x as [sx|sx| |sx mx ex], y as [sy|sy| |sy my ey]; try discriminate; intros Fin.
  - apply nearest_exact. destruct sx, sy; reflexivity.
  - apply nearest_exact. reflexivity.
  - apply nearest_exact. cbn [SFadd SFval]. lia.
  - pose proof (valid_exponent _ _ _ Vx). pose proof (valid_exponent _ _ _ Vy).
    cbn [SFadd] in *.
    rewrite <- (aligned_value sx mx ex (Z.min ex ey)), <- (aligned_value sy my ey (Z.min ex ey)) by lia.
    rewrite <- Z.mul_add_distr_r.
    apply binary_normalize_nearest; [lia|exact Fin].
Qed.

Lemma SFsub_nearest x y :
  valid_binary x = true -> valid_binary y = true ->
  SFfinite x = true -> SFfinite y = true ->
  SFfinite (SFsub prec emax x y) = true ->
  nearest (SFsub prec emax x y) (SFval x - SFval y).
Proof.
  intros Vx Vy Fx Fy.
  destruct x as [sx|sx| |sx mx ex], y as [sy|sy| |sy my ey]; try discriminate; intros Fin.
  - apply nearest_exact. destruct sx, sy; reflexivity.
  - apply nearest_exact. cbn [SFsub SFval]. destruct sy; cbn [negb cond_Zopp]; lia.
  - apply nearest_exact. cbn [SFsub SFval]. lia.
  - pose proof (valid_exponent _ _ _ Vx). pose proof (valid_exponent _ _ _ Vy).
    cbn [SFsub] in *.
    rewrite <- (aligned_value sx mx ex (Z.min ex ey)), <- (aligned_value sy my ey (Z.min ex ey)) by lia.
    rewrite <- Z.mul_sub_distr_r.
    apply binary_normalize_nearest; [lia|exact Fin].
Qed.

Lemma new_location_inb D q r :
  0 < D -> 0 <= r < D ->
  inb q (new_location D r) (D * q + r) D.
Proof.
  intros HD Hr. unfold new_location, new_location_even, new_location_odd.
  destruct (Z.even D) eqn:Ev.
  - destruct (Z.eqb_spec r 0) as [->|NZ]; cbn [inb]; [ring|].
    destruct (Z.compare_spec (2 * r) D); cbn [inb]; nia.
  - destruct (Z.eqb_spec r 0) as [->|NZ]; cbn [inb]; [ring|].
    assert (Od : exists j, D = 2 * j + 1).
    { rewrite <- Z.negb_odd in Ev. apply negb_false_iff in Ev.
      apply Z.odd_spec in Ev. exact Ev. }
    destruct Od as [j Ej].
    destruct (Z.compare_spec (2 * r + 1) D); cbn [inb]; nia.
Qed.

Lemma SFdiv_core_spec m1 e1 m2 e2 :
  let '(q, e', l) := SFdiv_core_binary prec emax (Zpos m1) e1 (Zpos m2) e2 in
  0 <= e1 - e2 - e' /\ 0 <= q
  /\ inb q l (Zpos m1 * 2 ^ (e1 - e2 - e')) (Zpos m2)
  /\ e' <= fexp prec emax (Zdigits2 q + e').
Proof.
  unfold SFdiv_core_binary.
  set (d1 := Zdigits2 (Zpos m1)). set (d2 := Zdigits2 (Zpos m2)).
  set (e' := Z.min (fexp prec emax (d1 + e1 - (d2 + e2))) (e1 - e2)).
  set (s := e1 - e2 - e'). assert (Hs : 0 <= s) by (unfold s, e'; lia).
  set (m' := match s with Z.pos _ => Z.shiftl (Zpos m1) s | 0 => Zpos m1 | Z.neg _ => 0 end).
  assert (Em : m' = Zpos m1 * 2 ^ s).
  { unfold m'. destruct s as [|p|p] eqn:Es; [change (2 ^ 0) with 1; lia| |lia].
    apply Z.shiftl_mul_pow2. lia. }
  pose proof (Z_div_mod m' (Zpos m2) ltac:(lia)) as DM.
  destruct (Z.div_eucl m' (Zpos m2)) as [q r]. destruct DM as [Eq Hr].
  assert (P2s : 0 < 2 ^ s) by (apply Z.pow_pos_nonneg; lia).
  assert (Hq : 0 <= q) by nia.
  split; [exact Hs|]. split; [exact Hq|]. split.
  - fold s. rewrite <- Em, Eq. apply new_location_inb; lia.
  - destruct (Zdigits2_bounds (Zpos m1) ltac:(lia)) as (P1 & L1 & U1).
    destruct (Zdigits2_bounds (Zpos m2) ltac:(lia)) as (P2 & L2 & U2).
    fold d1 in P1, L1, U1. fold d2 in P2, L2, U2.
    assert (Dq : d1 + s - d2 <= Zdigits2 q).
    { destruct (Z_lt_le_dec (d1 - 1 + s - d2) 0) as [Neg|NN].
      - destruct q as [|p|p]; cbn [Zdigits2]; lia.
      - assert (Lq : 2 ^ (d1 - 1 + s - d2) <= q).
        { assert (A : 2 ^ (d1 - 1 + s - d2) * 2 ^ d2 = 2 ^ (d1 - 1) * 2 ^ s).
          { rewrite <- !Z.pow_add_r by lia. f_equal. lia. }
          assert (0 < 2 ^ (d1 - 1 + s - d2)) by (apply Z.pow_pos_nonneg; lia).
          destruct (Z_le_gt_dec (2 ^ (d1 - 1 + s - d2)) q) as [|G]; [assumption|exfalso].
          nia. }
        assert (0 < q) by (pose proof (Z.pow_pos_nonneg 2 (d1 - 1 + s - d2)); lia).
        destruct (Zdigits2_bounds q ltac:(assumption)) as (Pq & Lq' & Uq).
        destruct (Z_le_gt_dec (d1 + s - d2) (Zdigits2 q)) as [|G]; [assumption|exfalso].
        assert (2 ^ Zdigits2 q <= 2 ^ (d1 - 1 + s - d2)) by (apply Z.pow_le_mono_r; lia).
        lia. }
    unfold e' at 1. rewrite !fexp64. unfold s in Dq. lia.
Qed.

(** Division by a number that is at least 1 does not increase the
    magnitude and keeps the sign. *)
Lemma SFdiv_shrinks x y :
  valid_binary x = true -> SFfinite x = true ->
  (y = S754_infinity false
   \/ exists my ey, y = S754_finite false my ey /\ 2 ^ 1074 <= Zpos my * 2 ^ (ey + 1074)
                    /\ -1074 <= ey) ->
  SFfinite (SFdiv prec emax x y) = true ->
  0 <= SFval (SFdiv prec emax x y) <= SFval x
  \/ SFval x <= SFval (SFdiv prec emax x y) <= 0.
Proof.
  intros Vx Fx Hy.
  destruct x as [sx|sx| |sx mx ex]; try discriminate.
  - destruct Hy as [->|(my & ey & -> & _)]; intros _; cbn; lia.
  - destruct Hy as [->|(my & ey & -> & Ge & Hey)].
    { intros _. cbn [SFdiv SFval]. pose proof (Z.pow_nonneg 2 (ex + 1074) ltac:(lia)).
      assert (0 <= Zpos mx * 2 ^ (ex + 1074)) by (apply Z.mul_nonneg_nonneg; lia).
      destruct sx; cbn [cond_Zopp]; lia. }
    cbn [SFdiv]. rewrite xorb_false_r.
    pose proof (SFdiv_core_spec mx ex my ey) as C.
    destruct (SFdiv_core_binary prec emax (Zpos mx) ex (Zpos my) ey) as [[q e'] l].
    destruct C as (Hs & Hq & I & H0).
    pose proof (binary_round_aux_rounded sx q e' l (Zpos mx * 2 ^ (ex - ey - e')) (Zpos my)
                  Hq ltac:(lia) I H0) as B.
    cbv zeta in B. set (eb := fexp prec emax (Zdigits2 q + e')) in *.
    assert (Heb : -1074 <= eb) by (unfold eb; rewrite fexp64; lia).
    set (s := ex - ey - e') in *.
    destruct B as (lo & u & R & Pu & Hlo & Bd & Rc & N1 & N2 & NF & LU & Res).
    intros Fin.
    pose proof (valid_exponent _ _ _ Vx) as Hex.
    assert (Cx : canonical_mantissa prec emax mx ex = true).
    { cbn [valid_binary] in Vx. unfold bounded in Vx. apply andb_prop in Vx. tauto. }
    set (F := Zpos mx * 2 ^ (ex + 1074)).
    set (Q := 2 ^ (eb - e') * Zpos my) in *.
    set (P := Zpos mx * 2 ^ s * 2 ^ (eb + 1074)) in *.
    assert (HQ : 0 < Q).
    { unfold Q. assert (0 < 2 ^ (eb - e')) by (apply Z.pow_pos_nonneg; lia). nia. }
    assert (PF : P <= F * Q).
    { unfold P, F, Q.
      assert (A : 2 ^ s * 2 ^ (eb + 1074) <= 2 ^ (ex + 1074) * (2 ^ (eb - e') * Zpos my)).
      { rewrite <- Z.pow_add_r by lia. rewrite Z.mul_assoc, <- Z.pow_add_r by lia.
        set (a := s + (eb + 1074)). set (b := ex + 1074 + (eb - e')).
        assert (Eab : b - a = ey) by (unfold a, b, s; lia).
        destruct (Z_le_gt_dec 0 ey) as [Pey|Ney].
        - assert (2 ^ a <= 2 ^ b) by (apply Z.pow_le_mono_r; lia).
          assert (0 < 2 ^ b) by (apply Z.pow_pos_nonneg; unfold b; lia). nia.
        - assert (Ea : 2 ^ a = 2 ^ b * 2 ^ (- ey)).
          { rewrite <- Z.pow_add_r by (unfold b; lia). f_equal. lia. }
          assert (E1074 : 2 ^ 1074 = 2 ^ (- ey) * 2 ^ (ey + 1074)).
          { rewrite <- Z.pow_add_r by lia. f_equal. lia. }
          assert (0 < 2 ^ (ey + 1074)) by (apply Z.pow_pos_nonneg; lia).
          assert (0 < 2 ^ b) by (apply Z.pow_pos_nonneg; unfold b; lia).
          assert (2 ^ (- ey) <= Zpos my) by nia.
          rewrite Ea. nia. }
      nia. }
    assert (RF : R <= F).
    { destruct (NF mx ex Cx) as [Lf|Uf]; fold F in Lf || fold F in Uf.
      - assert (lo * Q <= F * Q) by nia. assert (F * Q <= lo * Q) by nia.
        assert (F = lo) by nia. assert (R * Q = P) by lia. nia.
      - lia. }
    assert (HR : 0 <= R) by lia.
    assert (V : SFval (binary_round_aux prec emax sx q e' l) = cond_Zopp sx R).
    { destruct Res as [[E _]|[[E ER]|(mr & er & E & ER)]]; rewrite E in *;
        [discriminate| |rewrite <- ER; reflexivity].
      rewrite ER. destruct sx; reflexivity. }
    rewrite V. cbn [SFval]. fold F. destruct sx; cbn [cond_Zopp]; lia.
Qed.

Lemma SFadd_finite_inv x y :
  SFfinite (SFadd prec emax x y) = true -> SFfinite x = true /\ SFfinite y = true.
Proof.
  destruct x as [sx|sx| |sx mx ex], y as [sy|sy| |sy my ey]; cbn [SFadd SFfinite];
    try (intros; split; reflexivity); try discriminate;
    destruct sx, sy; discriminate.
Qed.

Lemma SFsub_finite_inv x y :
  SFfinite (SFsub prec emax x y) = true -> SFfinite x = true /\ SFfinite y = true.
Proof.
  destruct x as [sx|sx| |sx mx ex], y as [sy|sy| |sy my ey]; cbn [SFsub SFfinite];
    try (intros; split; reflexivity); try discriminate;
    destruct sx, sy; discriminate.
Qed.

Lemma SFdiv_finite_inv x y :
  (y = S754_infinity false \/ exists my ey, y = S754_finite false my ey) ->
  SFfinite (SFdiv prec emax x y) = true -> SFfinite x = true.
Proof.
  intros [->|(my & ey & ->)]; destruct x as [sx|sx| |sx mx ex]; cbn [SFdiv SFfinite];
    try (intros; reflexivity); discriminate.
Qed.

Lemma SFleb_one y :
  valid_binary y = true ->
  SFleb (S754_finite false 4503599627370496 (-52)) y = true ->
  y = S754_infinity false
  \/ exists my ey, y = S754_finite false my ey /\ 2 ^ 1074 <= Zpos my * 2 ^ (ey + 1074)
                   /\ -1074 <= ey.
Proof.
  intros V L. destruct y as [s|s| |s m e]; try discriminate.
  - destruct s; [discriminate|]. left. reflexivity.
  - destruct s; [discriminate|]. right. exists m, e. split; [reflexivity|].
    cbn [valid_binary] in V. unfold bounded in V. apply andb_prop in V. destruct V as [C _].
    destruct (canonical_bounds m e C) as (He & Um & Lm).
    unfold SFleb, SFcompare in L.
    assert (G : -52 < e \/ (e = -52 /\ 2 ^ 52 <= Zpos m)).
    { destruct (Z.compare_spec (-52) e) as [E|Lt|Gt]; [right|left; lia|discriminate].
      split; [lia|].
      change (Pos.compare_cont Eq 4503599627370496 m) with (Pos.compare 4503599627370496 m) in L.
      destruct (Pos.compare_spec 4503599627370496 m); try discriminate; lia. }
    split; [|lia].
    assert (Hm : 2 ^ 52 <= Zpos m) by (destruct G as [G|[_ G]]; [apply Lm; lia | exact G]).
    assert (Hp : 2 ^ 1022 <= 2 ^ (e + 1074)) by (apply Z.pow_le_mono_r; lia).
    change (2 ^ 1074) with (2 ^ 52 * 2 ^ 1022).
    apply Z.mul_le_mono_nonneg; lia.
Qed.

Lemma is_finite_SF x : PrimFloat.is_finite x = SFfinite (Prim2SF x).
Proof. rewrite is_finite_spec. destruct (Prim2SF x); reflexivity. Qed.

Theorem simulate_never_farther s c d :
  (1 <=? d)%float = true ->
  PrimFloat.is_finite (simulate s c d) = true ->
  Z.abs (units (simulate s c d) - units c) <= Z.abs (units s - units c).
Proof.
  rewrite FloatAxioms.leb_spec, is_finite_SF. unfold units, simulate.
  rewrite FloatAxioms.add_spec, FloatAxioms.div_spec, FloatAxioms.sub_spec. unfold SF64add, SF64div, SF64sub.
  change (Prim2SF 1) with (S754_finite false 4503599627370496 (-52)).
  pose proof (Prim2SF_valid s) as Vs. pose proof (Prim2SF_valid c) as Vc.
  pose proof (Prim2SF_valid d) as Vd. pose proof (Prim2SF_valid (c - s)) as Ve.
  pose proof (Prim2SF_valid ((c - s) / d)) as Vq.
  rewrite FloatAxioms.div_spec, FloatAxioms.sub_spec in Vq. rewrite FloatAxioms.sub_spec in Ve.
  unfold SF64div, SF64sub in *.
  set (S := Prim2SF s) in *. set (C := Prim2SF c) in *. set (D := Prim2SF d) in *.
  set (E := SFsub prec emax C S) in *. set (Q := SFdiv prec emax E D) in *.
  intros Ld Fn.
  destruct (SFadd_finite_inv _ _ Fn) as [Fs Fq].
  pose proof (SFleb_one D Vd Ld) as HD.
  assert (Fe : SFfinite E = true).
  { apply (SFdiv_finite_inv E D); [|exact Fq].
    destruct HD as [->|(my & ey & -> & _)]; [left; reflexivity | right; eauto]. }
  destruct (SFsub_finite_inv _ _ Fe) as [Fc _].
  destruct (SFsub_nearest C S Vc Vs Fc Fs Fe) as [_ RelE].
  pose proof (SFdiv_shrinks E D Ve Fe HD Fq) as Sh.
  destruct (SFadd_nearest S Q Vs Vq Fs Fq Fn) as [NearN _].
  pose proof (NearN S Vs Fs) as N1. pose proof (NearN C Vc Fc) as N2.
  fold E in RelE. fold Q in Sh, N1, N2 |- *.
  lia.
Qed.

(** A finite result of the update comes from a finite state and command. *)
Lemma simulate_finite_operands s c d :
  (1 <=? d)%float = true ->
  PrimFloat.is_finite (simulate s c d) = true ->
  PrimFloat.is_finite s = true /\ PrimFloat.is_finite c = true.
Proof.
  rewrite FloatAxioms.leb_spec, !is_finite_SF. unfold simulate.
  rewrite FloatAxioms.add_spec, FloatAxioms.div_spec, FloatAxioms.sub_spec.
  unfold SF64add, SF64div, SF64sub.
  change (Prim2SF 1) with (S754_finite false 4503599627370496 (-52)).
  intros Ld Fn. destruct (SFadd_finite_inv _ _ Fn) as [Fs Fq].
  split; [exact Fs|].
  destruct (SFleb_one _ (Prim2SF_valid d) Ld) as [HD|(my & ey & HD & _)]; rewrite HD in Fq.
  - apply SFdiv_finite_inv in Fq; [|left; reflexivity].
    apply SFsub_finite_inv in Fq. tauto.
  - apply SFdiv_finite_inv in Fq; [|right; eauto].
    apply SFsub_finite_inv in Fq. tauto.
Qed.

End Double.

(** * The countdown loop *)

Lemma countdown_step limit i tr :
  countdown limit i tr =
  if (int_to_double i <? limit)%float then
    if Z_lt_dec i INT_MAX
    then countdown limit (i + 1) (tr ++ countdown_body limit i)
    else LoopOverflow (tr ++ countdown_body limit i)
  else LoopDone tr.
Proof.
  rewrite countdown_equation_1.
  destruct (int_to_double i <? limit)%float; simp countdown; [|reflexivity].
  destruct (Z_lt_dec i INT_MAX); simp countdown; reflexivity.
Qed.

(** The loop leaves through its condition after [k] rounds when the
    condition holds at the counters [i .. i + k - 1] and fails at [i + k]. *)
Lemma countdown_done limit (k : nat) : forall i tr,
  i + Z.of_nat k <= INT_MAX ->
  (forall j, i <= j < i + Z.of_nat k -> (int_to_double j <? limit)%float = true) ->
  (int_to_double (i + Z.of_nat k) <? limit)%float = false ->
  countdown limit i tr =
  LoopDone (tr ++ flat_map (countdown_body limit) (seqZ i (Z.of_nat k))).
Proof.
  induction k as [|k IH]; intros i tr B T F.
  - rewrite countdown_step. rewrite Z.add_0_r in F. rewrite F.
    simpl. rewrite app_nil_r. reflexivity.
  - rewrite countdown_step, T by lia.
    destruct (Z_lt_dec i INT_MAX) as [_|N]; [|lia].
    rewrite IH.
    + rewrite (seqZ_cons i (Z.of_nat (S k))) by lia. cbn [flat_map].
      rewrite <- app_assoc. repeat f_equal; lia.
    + lia.
    + intros j Hj. apply T. lia.
    + rewrite <- F. f_equal. f_equal. lia.
Qed.

(** The counter overflows when the condition holds up to [INT_MAX]. *)
Lemma countdown_overflow limit (k : nat) : forall i tr,
  i + Z.of_nat k = INT_MAX ->
  (forall j, i <= j <= INT_MAX -> (int_to_double j <? limit)%float = true) ->
  countdown limit i tr =
  LoopOverflow (tr ++ flat_map (countdown_body limit) (seqZ i (Z.of_nat (S k)))).
Proof.
  induction k as [|k IH]; intros i tr B T.
  - rewrite countdown_step, T by lia.
    destruct (Z_lt_dec i INT_MAX) as [L|_]; [lia|].
    change (Z.of_nat 1) with 1. rewrite (seqZ_cons i 1), seqZ_nil by lia.
    cbn [flat_map]. rewrite app_nil_r. reflexivity.
  - rewrite countdown_step, T by lia.
    destruct (Z_lt_dec i INT_MAX) as [_|N]; [|lia].
    rewrite IH.
    + rewrite (seqZ_cons i (Z.of_nat (S (S k)))) by lia. cbn [flat_map].
      rewrite <- app_assoc. repeat f_equal; lia.
    + lia.
    + intros j Hj. apply T. lia.
Qed.

(** From a counter within range the loop always ends, in one of the two ways. *)
Lemma countdown_total limit (n : nat) : forall i tr,
  i + Z.of_nat n = INT_MAX ->
  (exists k : nat,
      i + Z.of_nat k <= INT_MAX
      /\ (forall j, i <= j < i + Z.of_nat k -> (int_to_double j <? limit)%float = true)
      /\ (int_to_double (i + Z.of_nat k) <? limit)%float = false
      /\ countdown limit i tr =
         LoopDone (tr ++ flat_map (countdown_body limit) (seqZ i (Z.of_nat k))))
  \/ ((forall j, i <= j <= INT_MAX -> (int_to_double j <? limit)%float = true)
      /\ countdown limit i tr =
         LoopOverflow (tr ++ flat_map (countdown_body limit) (seqZ i (Z.of_nat (S n))))).
Proof.
  induction n as [|n IH]; intros i tr B.
  - destruct (int_to_double i <? limit)%float eqn:C.
    + right. assert (T : forall j, i <= j <= INT_MAX -> (int_to_double j <? limit)%float = true).
      { intros j Hj. replace j with i by lia. exact C. }
      split; [exact T|]. apply countdown_overflow; [lia|exact T].
    + left. exists 0%nat. repeat split; try lia.
      * rewrite Z.add_0_r. exact C.
      * apply countdown_done; [lia| lia |rewrite Z.add_0_r; exact C].
  - destruct (int_to_double i <? limit)%float eqn:C.
    + destruct (IH (i + 1) (tr ++ countdown_body limit i) ltac:(lia))
        as [(k & Bk & Tk & Fk & Ek) | (T & E)].
      * left. exists (S k). 
        assert (T : forall j, i <= j < i + Z.of_nat (S k) -> (int_to_double j <? limit)%float = true).
        { intros j Hj. destruct (Z.eq_dec j i) as [->|]; [exact C|]. apply Tk. lia. }
        assert (F : (int_to_double (i + Z.of_nat (S k)) <? limit)%float = false).
        { rewrite <- Fk. f_equal. f_equal. lia. }
        repeat split; try lia; try assumption.
        apply countdown_done; [lia|exact T|exact F].
      * right.
        assert (T' : forall j, i <= j <= INT_MAX -> (int_to_double j <? limit)%float = true).
        { intros j Hj. destruct (Z.eq_dec j i) as [->|]; [exact C|]. apply T. lia. }
        split; [exact T'|]. apply countdown_overflow; [lia|exact T'].
    + left. exists 0%nat. repeat split; try lia.
      * rewrite Z.add_0_r. exact C.
      * apply countdown_done; [lia| lia |rewrite Z.add_0_r; exact C].
Qed.

(** * The control cycle *)

(** Unfolding of the sequencing of member-function statements. *)
Ltac run :=
  cbv beta iota delta [mbind M_bind mret M_ret RCLCPP_INFO RCLCPP_FATAL sleep_for
    emit gets modify fault joint0 at0]; cbn.

(** What [read] does on an object that has a first joint. *)
Lemma read_run (st : RRBotModularJoint) (joint : ComponentInfo) (rest : list ComponentInfo) :
  joints (info_ st) = joint :: rest ->
  read st =
  Returned OK
    (set_hw_joint_state_
       (simulate (hw_joint_state_ st) (hw_joint_command_ st) (hw_slowdown_ st)) st)
    [Info MsgReading;
     Info (MsgGotState
             (simulate (hw_joint_state_ st) (hw_joint_command_ st) (hw_slowdown_ st))
             (name joint));
     Info MsgRead].
Proof.
  intros J. unfold read. run. rewrite J. reflexivity.
Qed.

(** C1: on an initialised object (one whose description has a first joint),
    whatever the state [s], the command [c] and the slowdown [d], [read]
    returns [OK], replaces the state by [s + (c - s) / d] computed in double
    arithmetic, and changes no other member, the command included. *)
Theorem read_low_pass_update (st : RRBotModularJoint) (joint : ComponentInfo)
    (rest : list ComponentInfo) :
  joints (info_ st) = joint :: rest ->
  let s := hw_joint_state_ st in
  let c := hw_joint_command_ st in
  let d := hw_slowdown_ st in
  read st =
  Returned OK
    {| info_ := info_ st;
       hw_start_sec_ := hw_start_sec_ st;
       hw_stop_sec_ := hw_stop_sec_ st;
       hw_slowdown_ := d;
       hw_joint_state_ := (s + (c - s) / d)%float;
       hw_joint_command_ := c |}
    [Info MsgReading; Info (MsgGotState (s + (c - s) / d)%float (name joint)); Info MsgRead].
Proof.
  intros J. unfold read. run. rewrite J. reflexivity.
Qed.

Lemma read_low_pass_update_witness :
  read (sample_state 2 3 100 0 1) =
  Returned OK (sample_state 2 3 100 (0 + (1 - 0) / 100) 1)
    [Info MsgReading; Info (MsgGotState (0 + (1 - 0) / 100) "joint1"); Info MsgRead].
Proof.
  exact (read_low_pass_update (sample_state 2 3 100 0 1) sample_joint [] eq_refl).
Defined.

(** C8: on an initialised object [write] returns [OK], logs three lines and
    leaves the object, joint state and joint command included, as it was. *)
Theorem write_changes_nothing (st : RRBotModularJoint) (joint : ComponentInfo)
    (rest : list ComponentInfo) :
  joints (info_ st) = joint :: rest ->
  write st =
  Returned OK st
    [Info MsgWriting; Info (MsgGotCommand (hw_joint_command_ st) (name joint)); Info MsgWritten].
Proof.
  intros J. unfold write. run. rewrite J. reflexivity.
Qed.

Lemma write_changes_nothing_witness :
  write (sample_state 2 3 100 0.5 1) =
  Returned OK (sample_state 2 3 100 0.5 1)
    [Info MsgWriting; Info (MsgGotCommand 1 "joint1"); Info MsgWritten].
Proof.
  exact (write_changes_nothing (sample_state 2 3 100 0.5 1) sample_joint [] eq_refl).
Defined.

(** * Exported interfaces *)

(** C7: on an initialised object each of the two export functions returns a
    list of exactly one handle, named after the first joint, of kind
    "position", pointing to the state member and to the command member
    respectively; the object is left unchanged. *)
Theorem export_one_position_interface (st : RRBotModularJoint) (joint : ComponentInfo)
    (rest : list ComponentInfo) :
  joints (info_ st) = joint :: rest ->
  export_state_interfaces st =
    Returned [ {| handle_name := name joint; handle_interface := "position";
                  handle_value := HwJointState |} ] st []
  /\ export_command_interfaces st =
    Returned [ {| handle_name := name joint; handle_interface := "position";
                  handle_value := HwJointCommand |} ] st [].
Proof.
  intros J. unfold export_state_interfaces, export_command_interfaces. run.
  rewrite J. split; reflexivity.
Qed.

Lemma export_one_position_interface_witness :
  export_state_interfaces (sample_state 2 3 100 0 0) =
    Returned [ {| handle_name := "joint1"; handle_interface := "position";
                  handle_value := HwJointState |} ] (sample_state 2 3 100 0 0) []
  /\ export_command_interfaces (sample_state 2 3 100 0 0) =
    Returned [ {| handle_name := "joint1"; handle_interface := "position";
                  handle_value := HwJointCommand |} ] (sample_state 2 3 100 0 0) [].
Proof.
  exact (export_one_position_interface (sample_state 2 3 100 0 0) sample_joint [] eq_refl).
Defined.

(** * Activation and deactivation *)

Lemma on_activate_run st :
  on_activate st =
  match countdown (hw_start_sec_ st) 0 [] with
  | LoopDone tr =>
      Returned SUCCESS
        (if PrimFloat.is_nan (hw_joint_state_ st)
         then set_hw_joint_command_ 0 (set_hw_joint_state_ 0 st) else st)
        (Info MsgStarting :: tr ++ [Info MsgStarted])
  | LoopOverflow tr => Faulted SignedOverflow (Info MsgStarting :: tr)
  end.
Proof.
  unfold on_activate, run_countdown. run.
  destruct (countdown (hw_start_sec_ st) 0 []); [|reflexivity].
  cbn. destruct (PrimFloat.is_nan (hw_joint_state_ st)); cbn; rewrite ?app_nil_r; reflexivity.
Qed.

Lemma on_deactivate_run st :
  on_deactivate st =
  match countdown (hw_stop_sec_ st) 0 [] with
  | LoopDone tr => Returned SUCCESS st (Info MsgStopping :: tr ++ [Info MsgStopped])
  | LoopOverflow tr => Faulted SignedOverflow (Info MsgStopping :: tr)
  end.
Proof.
  unfold on_deactivate, run_countdown. run.
  destruct (countdown (hw_stop_sec_ st) 0 []); reflexivity.
Qed.

(** The first activation after [on_init], which has left NaN in the joint
    state and command, sets both to 0. *)
Example first_activation_after_init :
  on_init stod_sample base_sample sample_info (sample_state 0 0 0 1 1) =
    Returned SUCCESS (initialised sample_info 2 3 100) []
  /\ exists tr,
       on_activate (initialised sample_info 2 3 100) =
       Returned SUCCESS
         (set_hw_joint_command_ 0 (set_hw_joint_state_ 0 (initialised sample_info 2 3 100))) tr.
Proof. split; [vm_compute; reflexivity | eexists; reflexivity]. Qed.

(** A later activation leaves a simulated position alone. *)
Example second_activation :
  exists tr,
    on_activate (sample_state 2 3 100 0.75 1) = Returned SUCCESS (sample_state 2 3 100 0.75 1) tr.
Proof. eexists. reflexivity. Qed.

(** C9: [on_activate] either returns [SUCCESS], having set the joint state
    and command to 0 when the state was NaN and having left the object as it
    was when the state was a number, or its counter overflows, which takes a
    start duration above [INT_MAX]; it does nothing else to the object. *)
Theorem on_activate_defaults_only_for_nan (st : RRBotModularJoint) :
  (exists tr,
      on_activate st =
      Returned SUCCESS
        (if PrimFloat.is_nan (hw_joint_state_ st)
         then {| info_ := info_ st;
                 hw_start_sec_ := hw_start_sec_ st;
                 hw_stop_sec_ := hw_stop_sec_ st;
                 hw_slowdown_ := hw_slowdown_ st;
                 hw_joint_state_ := 0;
                 hw_joint_command_ := 0 |}
         else st)
        tr)
  \/ (exists tr,
      on_activate st = Faulted SignedOverflow tr
      /\ (int_to_double INT_MAX <? hw_start_sec_ st)%float = true).
Proof.
  rewrite on_activate_run.
  destruct (countdown_total (hw_start_sec_ st) (Z.to_nat INT_MAX) 0 [])
    as [(k & _ & _ & _ & E) | (T & E)]; [unfold INT_MAX; lia| |]; rewrite E.
  - left. eexists. reflexivity.
  - right. eexists. split; [reflexivity|]. apply T. unfold INT_MAX. lia.
Qed.

(** The trace of [k] rounds of a countdown from [limit]. *)
Lemma count_flat_map_body (p : Event -> bool) (c : nat) limit (l : list Z) :
  (forall i, count p (countdown_body limit i) = c) ->
  count p (flat_map (countdown_body limit) l) = (length l * c)%nat.
Proof.
  intros H. induction l as [|i l IH]; [reflexivity|].
  cbn [flat_map length]. 
  assert (A : forall a b, count p (a ++ b) = (count p a + count p b)%nat).
  { induction a as [|x a IHa]; intros b; cbn; [reflexivity|]. rewrite IHa. lia. }
  rewrite A, H, IH. lia.
Qed.

Lemma count_rounds (k : Z) limit (p : Event -> bool) (a b : Event) :
  0 <= k -> p a = false -> p b = false ->
  (forall i, count p (countdown_body limit i) = 1%nat) ->
  count p (a :: flat_map (countdown_body limit) (seqZ 0 k) ++ [b]) = Z.to_nat k.
Proof.
  intros Hk Ha Hb H. cbn [count]. rewrite Ha.
  assert (A : forall x y, count p (x ++ y) = (count p x + count p y)%nat).
  { induction x as [|e x IHx]; intros y; cbn; [reflexivity|]. rewrite IHx. lia. }
  rewrite A, (count_flat_map_body p 1 limit) by exact H.
  cbn [count]. rewrite Hb, length_seqZ. lia.
Qed.

(** C4 (as amended): when the configured duration is an integer [n] with
    [0 <= n <= INT_MAX], [on_activate] (for the start duration) and
    [on_deactivate] (for the stop duration) return [SUCCESS] after exactly
    [n] rounds, each a one-second sleep followed by one countdown log. *)
Theorem countdown_integer_duration (n : Z) (st : RRBotModularJoint) :
  0 <= n <= INT_MAX ->
  (hw_start_sec_ st = int_to_double n ->
   exists st' tr,
     on_activate st = Returned SUCCESS st' tr
     /\ tr = Info MsgStarting
             :: flat_map (countdown_body (int_to_double n)) (seqZ 0 n) ++ [Info MsgStarted]
     /\ count is_sleep tr = Z.to_nat n
     /\ count is_countdown_log tr = Z.to_nat n)
  /\ (hw_stop_sec_ st = int_to_double n ->
      exists tr,
        on_deactivate st = Returned SUCCESS st tr
        /\ tr = Info MsgStopping
                :: flat_map (countdown_body (int_to_double n)) (seqZ 0 n) ++ [Info MsgStopped]
        /\ count is_sleep tr = Z.to_nat n
        /\ count is_countdown_log tr = Z.to_nat n).
Proof.
  intros Hn.
  assert (E : countdown (int_to_double n) 0 [] =
              LoopDone (flat_map (countdown_body (int_to_double n)) (seqZ 0 n))).
  { rewrite (countdown_done (int_to_double n) (Z.to_nat n) 0 []).
    - rewrite Z2Nat.id by lia. reflexivity.
    - lia.
    - intros j Hj. rewrite Double.int_to_double_ltb by lia. apply Z.ltb_lt. lia.
    - rewrite Double.int_to_double_ltb by lia. apply Z.ltb_ge. lia. }
  split; intros L.
  - rewrite on_activate_run, L, E. eexists _, _. split; [reflexivity|]. split; [reflexivity|].
    split; apply count_rounds; try reflexivity; lia.
  - rewrite on_deactivate_run, L, E. eexists. split; [reflexivity|]. split; [reflexivity|].
    split; apply count_rounds; try reflexivity; lia.
Qed.

Lemma countdown_integer_duration_witness :
  (exists st' tr,
     on_activate (sample_state 2 2 100 0 0) = Returned SUCCESS st' tr
     /\ tr = Info MsgStarting
             :: flat_map (countdown_body (int_to_double 2)) (seqZ 0 2) ++ [Info MsgStarted]
     /\ count is_sleep tr = 2%nat
     /\ count is_countdown_log tr = 2%nat)
  /\ (exists tr,
        on_deactivate (sample_state 2 2 100 0 0) = Returned SUCCESS (sample_state 2 2 100 0 0) tr
        /\ tr = Info MsgStopping
                :: flat_map (countdown_body (int_to_double 2)) (seqZ 0 2) ++ [Info MsgStopped]
        /\ count is_sleep tr = 2%nat
        /\ count is_countdown_log tr = 2%nat).
Proof.
  destruct (countdown_integer_duration 2 (sample_state 2 2 100 0 0)) as [A B];
    [unfold INT_MAX; lia|].
  split; [exact (A eq_refl) | exact (B eq_refl)].
Defined.

(** A duration that is not an integer is rounded up: 2.5 seconds take three
    rounds. *)
Example activate_two_and_a_half :
  on_activate (sample_state 2.5 3 100 0 0) =
  Returned SUCCESS (sample_state 2.5 3 100 0 0)
    [Info MsgStarting;
     SleepFor 1; Info (MsgSecondsLeft 2.5);
     SleepFor 1; Info (MsgSecondsLeft 1.5);
     SleepFor 1; Info (MsgSecondsLeft 0.5);
     Info MsgStarted].
Proof. reflexivity. Qed.

Lemma countdown_beyond_int_range limit m e :
  Prim2SF limit = S754_finite false m e -> -21 <= e ->
  exists tr, countdown limit 0 [] = LoopOverflow tr.
Proof.
  intros P He. eexists.
  apply (countdown_overflow limit (Z.to_nat INT_MAX) 0 []); [unfold INT_MAX; lia|].
  intros j Hj. apply (Double.int_to_double_below j limit m e); assumption.
Qed.

(** C4, counterexample: with the start duration 3000000000, an integer
    number of seconds, [on_activate] does not perform that many rounds and
    return: its [int] counter overflows. *)
Lemma activate_three_billion_seconds :
  PrimFloat.of_uint63 (Uint63.of_Z 3000000000) = 3000000000%float
  /\ exists tr, on_activate (sample_state 3000000000 3 100 0 0) = Faulted SignedOverflow tr.
Proof.
  split; [reflexivity|].
  rewrite on_activate_run.
  destruct (countdown_beyond_int_range 3000000000%float 6291456000000000%positive (-21))
    as [tr E]; [vm_compute; reflexivity | lia |].
  cbn [hw_start_sec_ sample_state]. rewrite E. eexists. reflexivity.
Qed.

(** C5 (as amended): when the duration does not exceed [INT_MAX] (it may be
    negative, a fraction or NaN), the countdown ends after [k <= INT_MAX]
    rounds and the callback returns [SUCCESS]; the loop is left only through
    its condition, which held at every counter below [k] and fails at [k]. *)
Theorem countdown_runs_to_completion (st : RRBotModularJoint) :
  ((int_to_double INT_MAX <? hw_start_sec_ st)%float = false ->
   exists (k : Z) st',
     0 <= k <= INT_MAX
     /\ on_activate st =
        Returned SUCCESS st'
          (Info MsgStarting
           :: flat_map (countdown_body (hw_start_sec_ st)) (seqZ 0 k) ++ [Info MsgStarted])
     /\ (forall j, 0 <= j < k -> (int_to_double j <? hw_start_sec_ st)%float = true)
     /\ (int_to_double k <? hw_start_sec_ st)%float = false)
  /\ ((int_to_double INT_MAX <? hw_stop_sec_ st)%float = false ->
      exists k : Z,
        0 <= k <= INT_MAX
        /\ on_deactivate st =
           Returned SUCCESS st
             (Info MsgStopping
              :: flat_map (countdown_body (hw_stop_sec_ st)) (seqZ 0 k) ++ [Info MsgStopped])
        /\ (forall j, 0 <= j < k -> (int_to_double j <? hw_stop_sec_ st)%float = true)
        /\ (int_to_double k <? hw_stop_sec_ st)%float = false).
Proof.
  split; intros B.
  - rewrite on_activate_run.
    destruct (countdown_total (hw_start_sec_ st) (Z.to_nat INT_MAX) 0 [])
      as [(k & Bk & Tk & Fk & E) | (T & _)]; [unfold INT_MAX; lia| |].
    + exists (Z.of_nat k). eexists. rewrite E. repeat split; try lia.
      * intros j Hj. apply Tk. lia.
      * exact Fk.
    + rewrite T in B by (unfold INT_MAX; lia). discriminate.
  - rewrite on_deactivate_run.
    destruct (countdown_total (hw_stop_sec_ st) (Z.to_nat INT_MAX) 0 [])
      as [(k & Bk & Tk & Fk & E) | (T & _)]; [unfold INT_MAX; lia| |].
    + exists (Z.of_nat k). rewrite E. repeat split; try lia.
      * intros j Hj. apply Tk. lia.
      * exact Fk.
    + rewrite T in B by (unfold INT_MAX; lia). discriminate.
Qed.

Lemma countdown_runs_to_completion_witness :
  (exists (k : Z) st',
     0 <= k <= INT_MAX
     /\ on_activate (sample_state 2 3 100 0 0) =
        Returned SUCCESS st'
          (Info MsgStarting :: flat_map (countdown_body 2) (seqZ 0 k) ++ [Info MsgStarted])
     /\ (forall j, 0 <= j < k -> (int_to_double j <? 2)%float = true)
     /\ (int_to_double k <? 2)%float = false)
  /\ (exists k : Z,
        0 <= k <= INT_MAX
        /\ on_deactivate (sample_state 2 3 100 0 0) =
           Returned SUCCESS (sample_state 2 3 100 0 0)
             (Info MsgStopping :: flat_map (countdown_body 3) (seqZ 0 k) ++ [Info MsgStopped])
        /\ (forall j, 0 <= j < k -> (int_to_double j <? 3)%float = true)
        /\ (int_to_double k <? 3)%float = false).
Proof.
  destruct (countdown_runs_to_completion (sample_state 2 3 100 0 0)) as [A B].
  split; [exact (A eq_refl) | exact (B eq_refl)].
Defined.

(** C5, counterexample: the stop duration 1e10 is finite, yet
    [on_deactivate] does not return: the loop condition holds at every value
    of the [int] counter, which overflows. *)
Lemma deactivate_ten_billion_seconds :
  PrimFloat.is_finite 1e10 = true
  /\ exists tr, on_deactivate (sample_state 2 1e10 100 0 0) = Faulted SignedOverflow tr.
Proof.
  split; [reflexivity|].
  rewrite on_deactivate_run.
  destruct (countdown_beyond_int_range 1e10%float 5242880000000000%positive (-19))
    as [tr E]; [vm_compute; reflexivity | lia |].
  cbn [hw_stop_sec_ sample_state]. rewrite E. eexists. reflexivity.
Qed.

(** * Equilibrium of the simulation *)

(** C6, counterexample: with the state equal to the command, both
    +infinity, and the slowdown 2, [read] replaces the state by NaN. *)
Lemma read_at_infinity_moves :
  (infinity =? infinity)%float = true
  /\ (2 =? 0)%float = false
  /\ read (sample_state 2 3 2 infinity infinity) =
     Returned OK (sample_state 2 3 2 nan infinity)
       [Info MsgReading; Info (MsgGotState nan "joint1"); Info MsgRead].
Proof. repeat split; reflexivity. Qed.

(** With a NaN slowdown (which compares different from 0) a finite state at
    the command is lost as well. *)
Example read_with_nan_slowdown :
  read (sample_state 2 3 nan 1 1) =
  Returned OK (sample_state 2 3 nan nan 1)
    [Info MsgReading; Info (MsgGotState nan "joint1"); Info MsgRead].
Proof. reflexivity. Qed.

(** At -0 the state keeps its value but not its sign. *)
Example read_at_negative_zero :
  read (sample_state 2 3 100 (-0) (-0)) =
  Returned OK (sample_state 2 3 100 0 (-0))
    [Info MsgReading; Info (MsgGotState 0 "joint1"); Info MsgRead].
Proof. reflexivity. Qed.

(** C6 (as amended): on an initialised object whose state is finite and
    equal to the command, and whose slowdown is neither NaN nor zero, [read]
    returns [OK] with a state equal to the old one (the same double unless
    the state is a zero, whose sign may change) and the command unchanged. *)
Theorem read_fixed_point (st : RRBotModularJoint) (joint : ComponentInfo)
    (rest : list ComponentInfo) :
  joints (info_ st) = joint :: rest ->
  PrimFloat.is_finite (hw_joint_state_ st) = true ->
  (hw_joint_command_ st =? hw_joint_state_ st)%float = true ->
  PrimFloat.is_nan (hw_slowdown_ st) = false ->
  PrimFloat.is_zero (hw_slowdown_ st) = false ->
  exists st' tr,
    read st = Returned OK st' tr
    /\ (hw_joint_state_ st' =? hw_joint_state_ st)%float = true
    /\ (PrimFloat.is_zero (hw_joint_state_ st) = false -> st' = st)
    /\ hw_joint_command_ st' = hw_joint_command_ st.
Proof.
  intros J F E N Z.
  destruct (Double.simulate_equilibrium _ _ _ F E N Z) as [Q L].
  rewrite (read_run st joint rest J). eexists _, _.
  split; [reflexivity|]. cbn [hw_joint_state_ hw_joint_command_ set_hw_joint_state_].
  split; [exact Q|]. split; [|reflexivity].
  intros NZ. rewrite (L NZ). destruct st; reflexivity.
Qed.

Lemma read_fixed_point_witness :
  exists st' tr,
    read (sample_state 2 3 100 1.5 1.5) = Returned OK st' tr
    /\ (hw_joint_state_ st' =? 1.5)%float = true
    /\ (PrimFloat.is_zero 1.5 = false -> st' = sample_state 2 3 100 1.5 1.5)
    /\ hw_joint_command_ st' = 1.5%float.
Proof.
  exact (read_fixed_point (sample_state 2 3 100 1.5 1.5) sample_joint []
           eq_refl eq_refl eq_refl eq_refl eq_refl).
Defined.

(** * Approach to the command *)

(** C3, counterexample: from the state 0 with the command 1 and the slowdown
    0.25, [read] moves the state to 4, three times as far from the command
    as it was. *)
Lemma read_overshoots :
  read (sample_state 2 3 0.25 0 1) =
  Returned OK (sample_state 2 3 0.25 4 1)
    [Info MsgReading; Info (MsgGotState 4 "joint1"); Info MsgRead]
  /\ (0 =? 1)%float = false
  /\ (abs (4 - 1) <? abs (0 - 1))%float = false
  /\ abs (4 - 1) = 3%float /\ abs (0 - 1) = 1%float
  /\ Z.abs (units 4 - units 1) = 3 * Z.abs (units 0 - units 1)
  /\ 0 < Z.abs (units 0 - units 1).
Proof. repeat split; vm_compute; reflexivity. Qed.

(** Rounding can also leave the state where it is: the step from 1 towards
    the next double, divided by 4, is absorbed. *)
Example read_absorbed :
  read (sample_state 2 3 4 1 0x1.0000000000001p+0) =
  Returned OK (sample_state 2 3 4 1 0x1.0000000000001p+0)
    [Info MsgReading; Info (MsgGotState 1 "joint1"); Info MsgRead].
Proof. reflexivity. Qed.

(** With a slowdown of 1 the update can overflow although the state, the
    command and their difference are finite: both the difference and the sum
    are ties that round away from the state. *)
Example read_overflows :
  read (sample_state 2 3 1 0x1.8p+971 0x1.fffffffffffffp+1023) =
  Returned OK (sample_state 2 3 1 infinity 0x1.fffffffffffffp+1023)
    [Info MsgReading; Info (MsgGotState infinity "joint1"); Info MsgRead].
Proof. reflexivity. Qed.

(** ** Strict progress of the update *)

Module Approach.

Lemma above_exact r X : SFval r = X -> above r X.
Proof. intros E. unfold above. rewrite E. lia. Qed.

Lemma rounded_above r sx X :
  rounded r sx (Z.abs X) 1 -> X <> 0 -> SFfinite r = true -> above r X.
Proof.
  intros (lo & u & R & Pu & Hlo & B & Rc & N1 & N2 & NF & LU & Res) NZ Fin.
  rewrite !Z.mul_1_r in *.
  assert (V : Z.abs (SFval r) = R).
  { destruct Res as [[-> _]|[[-> ->]|(mr & er & -> & <-)]]; [discriminate|reflexivity|].
    cbn [SFval]. pose proof (Z.pow_nonneg 2 (er + 1074) ltac:(lia)).
    assert (0 <= Zpos mr * 2 ^ (er + 1074)) by (apply Z.mul_nonneg_nonneg; lia).
    destruct sx; cbn [cond_Zopp]; lia. }
  unfold above. rewrite V. lia.
Qed.

Lemma binary_normalize_above M e :
  -1074 <= e ->
  SFfinite (binary_normalize prec emax M e false) = true ->
  above (binary_normalize prec emax M e false) (M * 2 ^ (e + 1074)).
Proof.
  intros He Fin. assert (Pp : 0 < 2 ^ (e + 1074)) by (apply Z.pow_pos_nonneg; lia).
  destruct M as [|m|m]; cbn [binary_normalize] in *.
  - apply above_exact. reflexivity.
  - assert (0 < Zpos m * 2 ^ (e + 1074)) by nia.
    apply (rounded_above _ false); [|lia|exact Fin].
    rewrite Z.abs_eq by lia. apply Double.binary_round_rounded. exact He.
  - assert (Zneg m * 2 ^ (e + 1074) = - (Zpos m * 2 ^ (e + 1074))) by lia.
    assert (0 < Zpos m * 2 ^ (e + 1074)) by nia.
    apply (rounded_above _ true); [|lia|exact Fin].
    replace (Z.abs (Zneg m * 2 ^ (e + 1074))) with (Zpos m * 2 ^ (e + 1074)) by lia.
    apply Double.binary_round_rounded. exact He.
Qed.

Lemma SFsub_above x y :
  valid_binary x = true -> valid_binary y = true ->
  SFfinite x = true -> SFfinite y = true ->
  SFfinite (SFsub prec emax x y) = true ->
  above (SFsub prec emax x y) (SFval x - SFval y).
Proof.
  intros Vx Vy Fx Fy.
  destruct x as [sx|sx| |sx mx ex], y as [sy|sy| |sy my ey]; try discriminate; intros Fin.
  - apply above_exact. destruct sx, sy; reflexivity.
  - apply above_exact. cbn [SFsub SFval]. destruct sy; cbn [negb cond_Zopp]; lia.
  - apply above_exact. cbn [SFsub SFval]. lia.
  - pose proof (Double.valid_exponent _ _ _ Vx). pose proof (Double.valid_exponent _ _ _ Vy).
    cbn [SFsub] in *.
    rewrite <- (Double.aligned_value sx mx ex (Z.min ex ey)),
            <- (Double.aligned_value sy my ey (Z.min ex ey)) by lia.
    rewrite <- Z.mul_sub_distr_r.
    apply binary_normalize_above; [lia|exact Fin].
Qed.

(** The quantities of one update, as exact values: the rounded difference
    [E], the step [Q] and the new state, with what rounding to nearest
    gives about them. *)
Lemma simulate_exact s c d :
  (1 <=? d)%float = true ->
  PrimFloat.is_finite (simulate s c d) = true ->
  let S := units s in
  let C := units c in
  let Q := units ((c - s) / d) in
  let N := units (simulate s c d) in
  exists E,
    2 * Z.abs (E - (C - S)) <= Z.abs (C - S)
    /\ (Z.abs (C - S) < Z.abs E -> 2 * (Z.abs E - Z.abs (C - S)) < Z.abs (C - S))
    /\ (0 <= Q <= E \/ E <= Q <= 0)
    /\ (forall f, valid_binary f = true -> SFfinite f = true ->
          Z.abs (N - (S + Q)) <= Z.abs (SFval f - (S + Q)))
    /\ valid_binary (Prim2SF s) = true /\ SFfinite (Prim2SF s) = true
    /\ valid_binary (Prim2SF c) = true /\ SFfinite (Prim2SF c) = true.
Proof.
  rewrite FloatAxioms.leb_spec, Double.is_finite_SF. unfold units, simulate.
  rewrite FloatAxioms.add_spec, !FloatAxioms.div_spec, !FloatAxioms.sub_spec.
  unfold SF64add, SF64div, SF64sub.
  change (Prim2SF 1) with (S754_finite false 4503599627370496 (-52)).
  pose proof (Prim2SF_valid s) as Vs. pose proof (Prim2SF_valid c) as Vc.
  pose proof (Prim2SF_valid d) as Vd. pose proof (Prim2SF_valid (c - s)) as Ve.
  pose proof (Prim2SF_valid ((c - s) / d)) as Vq.
  rewrite FloatAxioms.div_spec, FloatAxioms.sub_spec in Vq. rewrite FloatAxioms.sub_spec in Ve.
  unfold SF64div, SF64sub in *.
  set (S := Prim2SF s) in *. set (C := Prim2SF c) in *. set (D := Prim2SF d) in *.
  set (E := SFsub prec emax C S) in *. set (Q := SFdiv prec emax E D) in *.
  intros Ld Fn. cbv zeta.
  destruct (Double.SFadd_finite_inv _ _ Fn) as [Fs Fq].
  pose proof (Double.SFleb_one D Vd Ld) as HD.
  assert (Fe : SFfinite E = true).
  { apply (Double.SFdiv_finite_inv E D); [|exact Fq].
    destruct HD as [->|(my & ey & -> & _)]; [left; reflexivity | right; eauto]. }
  destruct (Double.SFsub_finite_inv _ _ Fe) as [Fc _].
  destruct (Double.SFsub_nearest C S Vc Vs Fc Fs Fe) as [_ RelE].
  pose proof (SFsub_above C S Vc Vs Fc Fs Fe) as Ab.
  pose proof (Double.SFdiv_shrinks E D Ve Fe HD Fq) as Sh.
  destruct (Double.SFadd_nearest S Q Vs Vq Fs Fq Fn) as [NearN _].
  exists (SFval E). fold E in RelE, Ab. fold Q in Sh.
  repeat split; try assumption.
Qed.

(** An update that changes the state brings it strictly closer to the
    command. *)
Lemma simulate_strictly_closer s c d :
  (1 <=? d)%float = true ->
  PrimFloat.is_finite (simulate s c d) = true ->
  units (simulate s c d) <> units s ->
  Z.abs (units (simulate s c d) - units c) < Z.abs (units s - units c).
Proof.
  intros Ld Fn NE.
  destruct (simulate_exact s c d Ld Fn) as (E & RelE & Ab & Sh & Near & Vs & Fs & Vc & Fc).
  pose proof (Near _ Vs Fs) as N1. pose proof (Near _ Vc Fc) as N2.
  fold (units s) in N1. fold (units c) in N2.
  lia.
Qed.

Lemma canonical_intro m e :
  -1074 <= e -> Zpos m < 2 ^ 53 -> (-1074 < e -> 2 ^ 52 <= Zpos m) ->
  canonical_mantissa prec emax m e = true.
Proof.
  intros He Um Lm. unfold canonical_mantissa. rewrite Double.fexp64, Double.digits2_size.
  apply Z.eqb_eq. pose proof (Double.size_pow m) as [L U].
  assert (Sz : Zpos (Pos.size m) <= 53).
  { destruct (Z_le_gt_dec (Zpos (Pos.size m)) 53) as [|G]; [assumption|exfalso].
    assert (2 ^ 53 <= 2 ^ (Zpos (Pos.size m) - 1)) by (apply Z.pow_le_mono_r; lia). lia. }
  destruct (Z.eq_dec e (-1074)) as [->|Ne]; [lia|].
  specialize (Lm ltac:(lia)).
  assert (52 < Zpos (Pos.size m)).
  { destruct (Z_le_gt_dec (Zpos (Pos.size m)) 52) as [G|]; [exfalso|lia].
    assert (2 ^ Zpos (Pos.size m) <= 2 ^ 52) by (apply Z.pow_le_mono_r; lia). lia. }
  lia.
Qed.

(** Every integer below 2^53, scaled by a power of two within the exponent
    range, is the magnitude of a double. *)
Lemma representable (sx : bool) (n : nat) : forall k,
  Z.of_nat n <= 2045 -> 0 <= k < 2 ^ 53 ->
  exists f, valid_binary f = true /\ SFfinite f = true
            /\ SFval f = cond_Zopp sx (k * 2 ^ Z.of_nat n).
Proof.
  assert (P53 : 2 ^ 53 = 2 * 2 ^ 52) by reflexivity.
  induction n as [|n IH]; intros k Hn Hk.
  - destruct k as [|p|p]; try lia.
    + exists (S754_zero sx). split; [reflexivity|]. split; [reflexivity|].
      destruct sx; reflexivity.
    + exists (S754_finite sx p (-1074)). split; [|split; [reflexivity|]].
      * cbn [valid_binary]. unfold bounded. apply andb_true_intro. split.
        -- apply canonical_intro; lia.
        -- reflexivity.
      * cbn [SFval]. reflexivity.
  - destruct (Z_lt_ge_dec k (2 ^ 52)) as [Small|Big].
    + destruct (IH (2 * k) ltac:(lia) ltac:(lia)) as (f & Vf & Ff & Ef).
      exists f. split; [exact Vf|]. split; [exact Ff|]. rewrite Ef. f_equal.
      rewrite Nat2Z.inj_succ, Z.pow_succ_r by lia. ring.
    + destruct k as [|p|p]; try lia.
      exists (S754_finite sx p (Z.of_nat (S n) - 1074)). split; [|split; [reflexivity|]].
      * cbn [valid_binary]. unfold bounded. apply andb_true_intro. split.
        -- apply canonical_intro; lia.
        -- apply Z.leb_le. change (emax - prec) with 971. lia.
      * cbn [SFval]. do 3 f_equal. lia.
Qed.

(** No double is larger than the largest one. *)
Lemma SFval_bound f :
  valid_binary f = true -> Z.abs (SFval f) <= max_units.
Proof.
  assert (M : 0 <= max_units) by (unfold max_units; apply Z.mul_nonneg_nonneg; [lia|apply Z.pow_nonneg; lia]).
  destruct f as [s|s| |s m e]; cbn [SFval]; try (intros _; exact M).
  cbn [valid_binary]. unfold bounded. intros V. apply andb_prop in V. destruct V as [C B].
  apply Z.leb_le in B. change (emax - prec) with 971 in B.
  destruct (Double.canonical_bounds m e C) as (He & Um & _).
  assert (P : 0 < 2 ^ (e + 1074)) by (apply Z.pow_pos_nonneg; lia).
  assert (L : 2 ^ (e + 1074) <= 2 ^ 2045) by (apply Z.pow_le_mono_r; lia).
  assert (Zpos m * 2 ^ (e + 1074) <= max_units).
  { unfold max_units. apply Z.mul_le_mono_nonneg; lia. }
  destruct s; cbn [cond_Zopp]; lia.
Qed.

Lemma ulp_pos x : 0 < ulp x.
Proof.
  unfold ulp. pose proof (Prim2SF_valid x) as V.
  destruct (Prim2SF x) as [s|s| |s m e]; try lia.
  apply Double.valid_exponent in V. apply Z.pow_pos_nonneg; lia.
Qed.

(** The doubles next to a finite double [x], one spacing away on either
    side: they exist, except beyond the largest double. *)
Lemma neighbour x (up : bool) :
  PrimFloat.is_finite x = true ->
  (exists f, valid_binary f = true /\ SFfinite f = true
             /\ SFval f = if up then units x + ulp x else units x - ulp x)
  \/ (if up then units x = max_units else units x = - max_units).
Proof.
  rewrite Double.is_finite_SF. unfold units, ulp. pose proof (Prim2SF_valid x) as V.
  destruct (Prim2SF x) as [s|s| |s m e]; try discriminate; intros _.
  - left. destruct (representable (negb up) 0 1 ltac:(lia) ltac:(lia)) as (f & Vf & Ff & Ef).
    exists f. split; [exact Vf|]. split; [exact Ff|]. rewrite Ef.
    destruct up; reflexivity.
  - pose proof (Double.valid_exponent _ _ _ V) as He.
    cbn [valid_binary] in V. unfold bounded in V. apply andb_prop in V. destruct V as [C B].
    apply Z.leb_le in B. change (emax - prec) with 971 in B.
    destruct (Double.canonical_bounds m e C) as (_ & Um & _).
    cbn [SFval]. set (u := 2 ^ (e + 1074)).
    assert (Eu : u = 2 ^ Z.of_nat (Z.to_nat (e + 1074))) by (rewrite Z2Nat.id by lia; reflexivity).
    assert (Pu : 0 < u) by (apply Z.pow_pos_nonneg; lia).
    assert (Inner : exists f, valid_binary f = true /\ SFfinite f = true
                              /\ SFval f = cond_Zopp s ((Zpos m - 1) * u)).
    { rewrite Eu. apply representable; [rewrite Z2Nat.id by lia; lia | lia]. }
    assert (Outer : (exists f, valid_binary f = true /\ SFfinite f = true
                               /\ SFval f = cond_Zopp s ((Zpos m + 1) * u))
                    \/ Zpos m * u = max_units).
    { destruct (Z_lt_ge_dec (Zpos m + 1) (2 ^ 53)) as [Lt|Ge].
      - left. rewrite Eu. apply representable; [rewrite Z2Nat.id by lia; lia | lia].
      - assert (Em : Zpos m + 1 = 2 ^ 53) by lia.
        destruct (Z.eq_dec e 971) as [->|Ne].
        + right. unfold u, max_units. change (971 + 1074) with 2045. f_equal. lia.
        + left.
          destruct (representable s (S (Z.to_nat (e + 1074))) (2 ^ 52)
                      ltac:(rewrite Nat2Z.inj_succ, Z2Nat.id by lia; lia) ltac:(lia))
            as (f & Vf & Ff & Ef).
          exists f. split; [exact Vf|]. split; [exact Ff|]. rewrite Ef. f_equal.
          rewrite Nat2Z.inj_succ, Z.pow_succ_r, <- Eu, Em by lia.
          change (2 ^ 53) with (2 * 2 ^ 52). ring. }
    destruct s, up; cbn [cond_Zopp] in *.
    + left. destruct Inner as (f & Vf & Ff & Ef). exists f.
      split; [exact Vf|]. split; [exact Ff|]. rewrite Ef. ring.
    + destruct Outer as [(f & Vf & Ff & Ef)|Mx]; [left|right; lia].
      exists f. split; [exact Vf|]. split; [exact Ff|]. rewrite Ef. ring.
    + destruct Outer as [(f & Vf & Ff & Ef)|Mx]; [left|right; lia].
      exists f. split; [exact Vf|]. split; [exact Ff|]. rewrite Ef. ring.
    + left. destruct Inner as (f & Vf & Ff & Ef). exists f.
      split; [exact Vf|]. split; [exact Ff|]. rewrite Ef. ring.
Qed.

(** A step of more than half the spacing of the doubles at the state is
    not rounded away. *)
Lemma simulate_moves s c d :
  (1 <=? d)%float = true ->
  PrimFloat.is_finite (simulate s c d) = true ->
  ulp s < 2 * Z.abs (units ((c - s) / d)) ->
  units (simulate s c d) <> units s.
Proof.
  intros Ld Fn U EqN.
  destruct (simulate_exact s c d Ld Fn) as (E & RelE & _ & Sh & Near & Vs & Fs & Vc & Fc).
  pose proof (ulp_pos s) as Pu.
  pose proof (SFval_bound _ Vc) as Bc. fold (units c) in Bc.
  assert (Fin : PrimFloat.is_finite s = true) by (rewrite Double.is_finite_SF; exact Fs).
  rewrite EqN in Near.
  destruct (Z_lt_ge_dec 0 (units ((c - s) / d))) as [Pos|Neg].
  - destruct (neighbour s true Fin) as [(f & Vf & Ff & Ef)|Mx].
    + specialize (Near f Vf Ff). rewrite Ef in Near. lia.
    + lia.
  - destruct (neighbour s false Fin) as [(f & Vf & Ff & Ef)|Mx].
    + specialize (Near f Vf Ff). rewrite Ef in Near. lia.
    + lia.
Qed.

End Approach.

(** C3 (as amended): on an initialised object whose slowdown is at least 1
    (it may be +infinity), when the state [read] computes is finite (neither
    an overflow nor NaN), the state and the command were finite and [read]
    advances the state toward the command: the new state is no farther from
    the command than the old one, it is strictly closer whenever it differs
    from the old one, and it does differ, the step not being rounded away,
    whenever the step [(c - s) / d] exceeds half the spacing of the doubles
    at the old state.  Distances are exact.  A state at the command stays
    there, and the command is left unchanged. *)
Theorem read_advances_toward_command (st : RRBotModularJoint) (joint : ComponentInfo)
    (rest : list ComponentInfo) :
  joints (info_ st) = joint :: rest ->
  (1 <=? hw_slowdown_ st)%float = true ->
  PrimFloat.is_finite
    (hw_joint_state_ st + (hw_joint_command_ st - hw_joint_state_ st) / hw_slowdown_ st)
    = true ->
  exists st' tr,
    read st = Returned OK st' tr
    /\ hw_joint_command_ st' = hw_joint_command_ st
    /\ PrimFloat.is_finite (hw_joint_state_ st) = true
    /\ PrimFloat.is_finite (hw_joint_command_ st) = true
    /\ Z.abs (units (hw_joint_state_ st') - units (hw_joint_command_ st))
       <= Z.abs (units (hw_joint_state_ st) - units (hw_joint_command_ st))
    /\ (units (hw_joint_state_ st') <> units (hw_joint_state_ st) ->
        Z.abs (units (hw_joint_state_ st') - units (hw_joint_command_ st))
        < Z.abs (units (hw_joint_state_ st) - units (hw_joint_command_ st)))
    /\ (ulp (hw_joint_state_ st)
        < 2 * Z.abs (units ((hw_joint_command_ st - hw_joint_state_ st) / hw_slowdown_ st)) ->
        Z.abs (units (hw_joint_state_ st') - units (hw_joint_command_ st))
        < Z.abs (units (hw_joint_state_ st) - units (hw_joint_command_ st)))
    /\ (units (hw_joint_state_ st) = units (hw_joint_command_ st) ->
        units (hw_joint_state_ st') = units (hw_joint_command_ st)).
Proof.
  intros J D F. rewrite (read_run st joint rest J). eexists _, _.
  split; [reflexivity|]. cbn [hw_joint_state_ hw_joint_command_ set_hw_joint_state_].
  split; [reflexivity|].
  fold (simulate (hw_joint_state_ st) (hw_joint_command_ st) (hw_slowdown_ st)) in F |- *.
  destruct (Double.simulate_finite_operands _ _ _ D F) as [Fs Fc].
  pose proof (Double.simulate_never_farther _ _ _ D F) as N.
  pose proof (Approach.simulate_strictly_closer _ _ _ D F) as Strict.
  pose proof (Approach.simulate_moves _ _ _ D F) as Moves.
  split; [exact Fs|]. split; [exact Fc|]. split; [exact N|]. split; [exact Strict|].
  split; [|lia].
  intros Big. apply Strict, Moves, Big.
Qed.

Lemma read_advances_toward_command_witness :
  exists st' tr,
    read (sample_state 2 3 100 0 1) = Returned OK st' tr
    /\ hw_joint_command_ st' = 1%float
    /\ Z.abs (units (hw_joint_state_ st') - units 1) < Z.abs (units 0 - units 1).
Proof.
  destruct (read_advances_toward_command (sample_state 2 3 100 0 1) sample_joint []
              eq_refl eq_refl eq_refl)
    as (st' & tr & R & Cm & _ & _ & _ & _ & Big & _).
  exists st', tr. split; [exact R|]. split; [exact Cm|].
  apply Big. vm_compute. reflexivity.
Defined.

(** * Initialisation *)

Lemma param_value_touch key key' info :
  param_value (touch key info) key' = param_value info key'.
Proof.
  unfold touch, param_value.
  destruct (hardware_parameters info !! key) eqn:E; [reflexivity|]. cbn.
  destruct (decide (key = key')) as [<-|N].
  - rewrite lookup_insert_eq, E. reflexivity.
  - rewrite lookup_insert_ne by exact N. reflexivity.
Qed.

Lemma joints_touch key info : joints (touch key info) = joints info.
Proof. unfold touch. destruct (hardware_parameters info !! key); reflexivity. Qed.

Lemma check_interfaces_run joint st :
  check_interfaces joint st =
    Returned (if joint_shape_ok joint then SUCCESS else ERROR) st
      (fatal_log (shape_violation joint))
  /\ (joint_shape_ok joint = true <-> shape_violation joint = None).
Proof.
  unfold check_interfaces, joint_shape_ok, shape_violation.
  destruct (command_interfaces joint) as [|c [|c' cs]];
    [split; [reflexivity | split; discriminate] |
    | destruct (state_interfaces joint) as [|? [|? ?]];
      (split; [reflexivity | split; discriminate])].
  cbn [length]. destruct (decide (1%nat ≠ 1%nat)) as [N|_]; [congruence|].
  run. destruct (decide (if_name c ≠ HW_IF_POSITION)) as [N|E].
  - rewrite bool_decide_eq_false_2 by exact N.
    destruct (decide (if_name c = "position")) as [E|_]; [contradiction|].
    destruct (state_interfaces joint) as [|? [|? ?]];
      (split; [reflexivity | split; discriminate]).
  - apply dec_stable in E. rewrite (bool_decide_eq_true_2 _ E).
    destruct (decide (if_name c = "position")) as [_|N]; [|contradiction].
    destruct (state_interfaces joint) as [|s [|s' ss]];
      [split; [reflexivity | split; discriminate] |
      | split; [reflexivity | split; discriminate]].
    cbn. destruct (decide (if_name s ≠ HW_IF_POSITION)) as [N'|E'].
    + rewrite bool_decide_eq_false_2 by exact N'.
      destruct (decide (if_name s = "position")) as [E'|_]; [contradiction|].
      split; [reflexivity | split; discriminate].
    + apply dec_stable in E'. rewrite (bool_decide_eq_true_2 _ E').
      destruct (decide (if_name s = "position")) as [_|N']; [|contradiction].
      split; [reflexivity | split; reflexivity].
Qed.

Section InitFacts.

Variable stod : string -> StodResult.
Variable ActuatorInterface_on_init : HardwareInfo -> CallbackReturn.

Let init := on_init stod ActuatorInterface_on_init.

Lemma hardware_parameter_run key st :
  hardware_parameter key st =
  Returned (param_value (info_ st) key) (set_info_ (touch key (info_ st)) st) [].
Proof.
  unfold hardware_parameter, param_value, touch. run.
  destruct (hardware_parameters (info_ st) !! key); cbn; [|reflexivity].
  destruct st; reflexivity.
Qed.

Lemma stod_parameter_run key st :
  (hardware_parameter key ≫= call_stod stod) st =
  match stod (param_value (info_ st) key) with
  | Parsed v => Returned v (set_info_ (touch key (info_ st)) st) []
  | StodInvalidArgument => Faulted InvalidArgument []
  | StodOutOfRange => Faulted OutOfRange []
  end.
Proof.
  unfold mbind at 1, M_bind. rewrite hardware_parameter_run. unfold call_stod.
  destruct (stod (param_value (info_ st) key)); reflexivity.
Qed.

Lemma on_init_run info st :
  init info st =
  if decide (ActuatorInterface_on_init info ≠ SUCCESS)
  then Returned ERROR (set_info_ info st) []
  else
    match stod (param_value info "example_param_hw_start_duration_sec") with
    | Parsed start =>
        match stod (param_value info "example_param_hw_stop_duration_sec") with
        | Parsed stop =>
            match stod (param_value info "example_param_hw_slowdown") with
            | Parsed slowdown =>
                match joints info with
                | joint :: _ => check_interfaces joint (initialised info start stop slowdown)
                | [] => Faulted VectorIndex []
                end
            | StodInvalidArgument => Faulted InvalidArgument []
            | StodOutOfRange => Faulted OutOfRange []
            end
        | StodInvalidArgument => Faulted InvalidArgument []
        | StodOutOfRange => Faulted OutOfRange []
        end
    | StodInvalidArgument => Faulted InvalidArgument []
    | StodOutOfRange => Faulted OutOfRange []
    end.
Proof.
  unfold init, on_init, base_on_init.
  unfold mbind at 1, M_bind at 1. run.
  destruct (decide (ActuatorInterface_on_init info ≠ SUCCESS)); [reflexivity|].
  rewrite hardware_parameter_run. cbn. unfold call_stod at 1.
  destruct (stod (param_value info "example_param_hw_start_duration_sec")) as [start| |];
    [|reflexivity..].
  cbn. rewrite hardware_parameter_run. cbn. unfold call_stod at 1.
  rewrite param_value_touch.
  destruct (stod (param_value info "example_param_hw_stop_duration_sec")) as [stop| |];
    [|reflexivity..].
  cbn. rewrite hardware_parameter_run. cbn. unfold call_stod at 1.
  rewrite !param_value_touch.
  destruct (stod (param_value info "example_param_hw_slowdown")) as [slowdown| |];
    [|reflexivity..].
  cbn. rewrite !joints_touch.
  destruct (joints info) as [|joint rest]; [reflexivity|]. cbn.
  match goal with
  | |- context [check_interfaces joint ?s] =>
      change s with (initialised info start stop slowdown)
  end.
  destruct (check_interfaces joint (initialised info start stop slowdown)); reflexivity.
Qed.

(** C2 (as amended): when the base class's [on_init] has succeeded, the
    three parameters are converted by [stod] and the description has a
    first joint, [on_init] returns [SUCCESS] if that joint has exactly one
    command interface and exactly one state interface, both named
    "position", and [ERROR] otherwise; the shape is validated by four checks
    in sequence (command count, command kind, state count, state kind), and
    the first one that fails logs the only line, a fatal one.  The members
    then hold the three parameters and NaN for the joint state and
    command. *)
Theorem on_init_validates_joint_shape (info : HardwareInfo) (st : RRBotModularJoint)
    (joint : ComponentInfo) (rest : list ComponentInfo) (start stop slowdown : float) :
  ActuatorInterface_on_init info = SUCCESS ->
  stod (param_value info "example_param_hw_start_duration_sec") = Parsed start ->
  stod (param_value info "example_param_hw_stop_duration_sec") = Parsed stop ->
  stod (param_value info "example_param_hw_slowdown") = Parsed slowdown ->
  joints info = joint :: rest ->
  on_init stod ActuatorInterface_on_init info st =
    Returned (if joint_shape_ok joint then SUCCESS else ERROR)
      (initialised info start stop slowdown)
      (fatal_log (shape_violation joint))
  /\ (joint_shape_ok joint = true <-> shape_violation joint = None).
Proof.
  intros B P1 P2 P3 J. fold init. rewrite on_init_run, B, P1, P2, P3, J.
  destruct (decide (SUCCESS ≠ SUCCESS)) as [N|_]; [congruence|].
  apply check_interfaces_run.
Qed.

(** C10: with the base class's [on_init] successful, [on_init] returns a
    value exactly when the description has a first joint and [stod] converts
    the three parameters, which (as [stod] rejects the empty string) must
    then be present.  Under this precondition every failure is reported
    through the return value: the result is [ERROR], with one fatal line,
    when the first joint fails the validation, and [SUCCESS], with nothing
    logged, when it passes.  Otherwise [on_init] does not return: [stod]
    throws or [joints[0]] is out of range, before any check has logged
    anything. *)
Theorem on_init_unchecked_precondition (info : HardwareInfo) (st : RRBotModularJoint) :
  stod "" = StodInvalidArgument ->
  ActuatorInterface_on_init info = SUCCESS ->
  if init_precondition stod info
  then (exists joint rest st',
          joints info = joint :: rest
          /\ on_init stod ActuatorInterface_on_init info st =
             Returned (if joint_shape_ok joint then SUCCESS else ERROR) st'
               (fatal_log (shape_violation joint))
          /\ (joint_shape_ok joint = true -> shape_violation joint = None)
          /\ (joint_shape_ok joint = false -> exists m, shape_violation joint = Some m))
       /\ Forall (fun key => is_Some (hardware_parameters info !! key)) init_keys
  else exists f,
         on_init stod ActuatorInterface_on_init info st = Faulted f []
         /\ (f = InvalidArgument \/ f = OutOfRange \/ f = VectorIndex).
Proof.
  intros S B. fold init. rewrite on_init_run, B.
  destruct (decide (SUCCESS ≠ SUCCESS)) as [N|_]; [congruence|].
  assert (Present : forall key v,
             stod (param_value info key) = Parsed v ->
             is_Some (hardware_parameters info !! key)).
  { intros key v P. unfold param_value in P.
    destruct (hardware_parameters info !! key); [eexists; reflexivity|].
    cbn in P. congruence. }
  unfold init_precondition, init_keys, parses. cbn [forallb].
  destruct (stod (param_value info "example_param_hw_start_duration_sec")) as [start| |] eqn:P1;
    cbn [andb]; [|eexists; split; [reflexivity|tauto]..].
  destruct (stod (param_value info "example_param_hw_stop_duration_sec")) as [stop| |] eqn:P2;
    cbn [andb]; [|eexists; split; [reflexivity|tauto]..].
  destruct (stod (param_value info "example_param_hw_slowdown")) as [slowdown| |] eqn:P3;
    cbn [andb]; [|eexists; split; [reflexivity|tauto]..].
  destruct (joints info) as [|joint rest]; [eexists; split; [reflexivity|tauto]|].
  split.
  - destruct (check_interfaces_run joint (initialised info start stop slowdown)) as (E & V).
    exists joint, rest, (initialised info start stop slowdown).
    split; [reflexivity|]. split; [exact E|]. split; [apply V|].
    intros Bad. destruct (shape_violation joint) as [m|]; [eauto|].
    destruct V as [_ V]. rewrite (V eq_refl) in Bad. discriminate.
  - repeat constructor; eapply Present; eassumption.
Qed.

End InitFacts.

Lemma on_init_validates_joint_shape_witness :
  on_init stod_sample base_sample sample_info (sample_state 0 0 0 0 0) =
    Returned SUCCESS (initialised sample_info 2 3 100) []
  /\ (joint_shape_ok sample_joint = true <-> shape_violation sample_joint = None).
Proof.
  exact (on_init_validates_joint_shape stod_sample base_sample sample_info
           (sample_state 0 0 0 0 0) sample_joint [] 2 3 100
           eq_refl eq_refl eq_refl eq_refl eq_refl).
Defined.

(** C2, counterexample: a description whose joint has the required shape but
    which carries no hardware parameter: [stod] is applied to the empty
    string and throws, so [on_init] returns neither [SUCCESS] nor [ERROR]. *)
Lemma on_init_without_parameters_throws :
  joint_shape_ok sample_joint = true
  /\ joints info_without_parameters = [sample_joint]
  /\ on_init stod_sample base_sample info_without_parameters (sample_state 0 0 0 0 0) =
     Faulted InvalidArgument [].
Proof. repeat split; vm_compute; reflexivity. Qed.

Lemma on_init_unchecked_precondition_witness :
  exists st',
    on_init stod_sample base_sample info_two_command_interfaces (sample_state 0 0 0 0 0) =
    Returned ERROR st' [Fatal (MsgCommandCount "joint1" 2)].
Proof.
  destruct (on_init_unchecked_precondition stod_sample base_sample
              info_two_command_interfaces (sample_state 0 0 0 0 0) eq_refl eq_refl)
    as [(joint & rest & st' & J & R & _) _].
  injection J as <- <-. exists st'. exact R.
Defined.

(** The four checks of [on_init], each failing alone. *)
Example on_init_two_command_interfaces :
  exists st,
    on_init stod_sample base_sample
      {| hardware_parameters := hardware_parameters sample_info;
         joints := [ {| name := "joint1";
                        command_interfaces := [ {| if_name := "position" |};
                                                {| if_name := "velocity" |} ];
                        state_interfaces := [ {| if_name := "position" |} ] |} ] |}
      (sample_state 0 0 0 0 0)
    = Returned ERROR st [Fatal (MsgCommandCount "joint1" 2)].
Proof. eexists. vm_compute. reflexivity. Qed.

Example on_init_velocity_command :
  exists st,
    on_init stod_sample base_sample
      {| hardware_parameters := hardware_parameters sample_info;
         joints := [ {| name := "joint1";
                        command_interfaces := [ {| if_name := "velocity" |} ];
                        state_interfaces := [ {| if_name := "position" |} ] |} ] |}
      (sample_state 0 0 0 0 0)
    = Returned ERROR st [Fatal (MsgCommandKind "joint1" "velocity")].
Proof. eexists. vm_compute. reflexivity. Qed.

Example on_init_no_state_interface :
  exists st,
    on_init stod_sample base_sample
      {| hardware_parameters := hardware_parameters sample_info;
         joints := [ {| name := "joint1";
                        command_interfaces := [ {| if_name := "position" |} ];
                        state_interfaces := [] |} ] |}
      (sample_state 0 0 0 0 0)
    = Returned ERROR st [Fatal (MsgStateCount "joint1" 0)].
Proof. eexists. vm_compute. reflexivity. Qed.

Example on_init_velocity_state :
  exists st,
    on_init stod_sample base_sample
      {| hardware_parameters := hardware_parameters sample_info;
         joints := [ {| name := "joint1";
                        command_interfaces := [ {| if_name := "position" |} ];
                        state_interfaces := [ {| if_name := "velocity" |} ] |} ] |}
      (sample_state 0 0 0 0 0)
    = Returned ERROR st [Fatal (MsgStateKind "joint1" "velocity")].
Proof. eexists. vm_compute. reflexivity. Qed.

(** A description without joints: [joints[0]] is out of range. *)
Example on_init_without_joints :
  on_init stod_sample base_sample
    {| hardware_parameters := hardware_parameters sample_info; joints := [] |}
    (sample_state 0 0 0 0 0)
  = Faulted VectorIndex [].
Proof. vm_compute. reflexivity. Qed.

(** * Order and subtraction of doubles by their exact values *)

Module DoubleOrder.

Lemma canonical_of_valid s m e :
  valid_binary (S754_finite s m e) = true -> canonical_mantissa prec emax m e = true.
Proof.
  cbn [valid_binary]. unfold bounded. intros V. apply andb_prop in V. tauto.
Qed.

Lemma mag_pos m e : -1074 <= e -> 0 < Zpos m * 2 ^ (e + 1074).
Proof.
  intros He. assert (0 < 2 ^ (e + 1074)) by (apply Z.pow_pos_nonneg; lia). nia.
Qed.

(** Among canonical numbers the exponent decides the order of magnitudes. *)
Lemma mag_lt m1 e1 m2 e2 :
  canonical_mantissa prec emax m1 e1 = true ->
  canonical_mantissa prec emax m2 e2 = true ->
  e1 < e2 ->
  Zpos m1 * 2 ^ (e1 + 1074) < Zpos m2 * 2 ^ (e2 + 1074).
Proof.
  intros C1 C2 L.
  destruct (Double.canonical_bounds m1 e1 C1) as (H1 & U1 & _).
  destruct (Double.canonical_bounds m2 e2 C2) as (H2 & _ & L2).
  specialize (L2 ltac:(lia)).
  assert (P : 2 ^ (e1 + 1074 + 53) <= 2 ^ (e2 + 1074 + 52)) by (apply Z.pow_le_mono_r; lia).
  rewrite (Z.pow_add_r 2 _ 53), (Z.pow_add_r 2 _ 52) in P by lia.
  set (a := 2 ^ (e1 + 1074)) in *. set (b := 2 ^ (e2 + 1074)) in *.
  assert (0 < a) by (apply Z.pow_pos_nonneg; lia).
  assert (Zpos m1 * a < 2 ^ 53 * a) by (apply Z.mul_lt_mono_pos_r; lia).
  assert (2 ^ 52 * b <= Zpos m2 * b) by (apply Z.mul_le_mono_nonneg_r; unfold b; lia).
  lia.
Qed.

Lemma mag_compare m1 e1 m2 e2 :
  canonical_mantissa prec emax m1 e1 = true ->
  canonical_mantissa prec emax m2 e2 = true ->
  match Z.compare e1 e2 with
  | Lt => Lt
  | Gt => Gt
  | Eq => Pos.compare_cont Eq m1 m2
  end = (Zpos m1 * 2 ^ (e1 + 1074) ?= Zpos m2 * 2 ^ (e2 + 1074)).
Proof.
  intros C1 C2. destruct (Z.compare_spec e1 e2) as [E|L|G].
  - subst e2. change (Pos.compare_cont Eq m1 m2) with (Pos.compare m1 m2).
    rewrite Pos2Z.inj_compare.
    destruct (Double.canonical_bounds m1 e1 C1) as (H1 & _ & _).
    assert (0 < 2 ^ (e1 + 1074)) by (apply Z.pow_pos_nonneg; lia).
    destruct (Z.compare_spec (Zpos m1) (Zpos m2)); symmetry;
      [apply Z.compare_eq_iff | apply Z.compare_lt_iff | apply Z.compare_gt_iff]; nia.
  - symmetry. apply Z.compare_lt_iff. apply mag_lt; assumption.
  - symmetry. apply Z.compare_gt_iff. apply mag_lt; assumption.
Qed.

(** The comparison of finite doubles is the comparison of their values. *)
Lemma SFcompare_val x y :
  valid_binary x = true -> valid_binary y = true ->
  SFfinite x = true -> SFfinite y = true ->
  SFcompare x y = Some (SFval x ?= SFval y).
Proof.
  intros Vx Vy Fx Fy.
  destruct x as [sx|sx| |sx mx ex], y as [sy|sy| |sy my ey]; try discriminate.
  - reflexivity.
  - pose proof (mag_pos my ey (Double.valid_exponent _ _ _ Vy)).
    cbn [SFcompare SFval]. f_equal. symmetry.
    destruct sy; cbn [cond_Zopp]; [apply Z.compare_gt_iff | apply Z.compare_lt_iff]; lia.
  - pose proof (mag_pos mx ex (Double.valid_exponent _ _ _ Vx)).
    cbn [SFcompare SFval]. f_equal. symmetry.
    destruct sx; cbn [cond_Zopp]; [apply Z.compare_lt_iff | apply Z.compare_gt_iff]; lia.
  - pose proof (mag_pos mx ex (Double.valid_exponent _ _ _ Vx)).
    pose proof (mag_pos my ey (Double.valid_exponent _ _ _ Vy)).
    pose proof (canonical_of_valid _ _ _ Vx) as Cx.
    pose proof (canonical_of_valid _ _ _ Vy) as Cy.
    cbn [SFcompare SFval]. f_equal.
    destruct sx, sy; cbn [cond_Zopp].
    + rewrite Z.compare_opp, <- (mag_compare my ey mx ex Cy Cx).
      destruct (Z.compare_spec ex ey) as [E|L|G].
      * subst. rewrite Z.compare_refl.
        change (Pos.compare_cont Eq ?a ?b) with (Pos.compare a b).
        rewrite (Pos.compare_antisym mx my). reflexivity.
      * destruct (Z.compare_spec ey ex); try lia; reflexivity.
      * destruct (Z.compare_spec ey ex); try lia; reflexivity.
    + symmetry. apply Z.compare_lt_iff. lia.
    + symmetry. apply Z.compare_gt_iff. lia.
    + apply mag_compare; assumption.
Qed.

Lemma ltb_units x y :
  PrimFloat.is_finite x = true -> PrimFloat.is_finite y = true ->
  (x <? y)%float = (units x <? units y).
Proof.
  rewrite !Double.is_finite_SF, FloatAxioms.ltb_spec. intros Fx Fy. unfold SFltb, units.
  rewrite (SFcompare_val _ _ (Prim2SF_valid x) (Prim2SF_valid y) Fx Fy).
  unfold Z.ltb. destruct (SFval (Prim2SF x) ?= SFval (Prim2SF y)); reflexivity.
Qed.

Lemma eqb_units x y :
  PrimFloat.is_finite x = true -> PrimFloat.is_finite y = true ->
  (x =? y)%float = (units x =? units y).
Proof.
  rewrite !Double.is_finite_SF, FloatAxioms.eqb_spec. intros Fx Fy. unfold SFeqb, units.
  rewrite (SFcompare_val _ _ (Prim2SF_valid x) (Prim2SF_valid y) Fx Fy).
  unfold Z.eqb.
  destruct (Z.compare_spec (SFval (Prim2SF x)) (SFval (Prim2SF y))) as [E|L|G].
  - rewrite E. destruct (SFval (Prim2SF y)); [reflexivity|apply eq_sym, Pos.eqb_refl..].
  - destruct (SFval (Prim2SF x)), (SFval (Prim2SF y)); try reflexivity; try lia;
      symmetry; apply Pos.eqb_neq; lia.
  - destruct (SFval (Prim2SF x)), (SFval (Prim2SF y)); try reflexivity; try lia;
      symmetry; apply Pos.eqb_neq; lia.
Qed.

(** Two finite doubles of the same value differ at most by the sign of zero. *)
Lemma units_inj x y :
  PrimFloat.is_finite x = true -> PrimFloat.is_finite y = true ->
  units x = units y -> PrimFloat.is_zero x = false -> x = y.
Proof.
  intros Fx Fy E Zx.
  assert (Q : (x =? y)%float = true) by (rewrite eqb_units, E by assumption; apply Z.eqb_refl).
  rewrite FloatAxioms.eqb_spec in Q. rewrite Double.is_zero_spec in Zx.
  rewrite Double.is_finite_SF in Fx, Fy.
  apply Prim2SF_inj.
  destruct (Prim2SF x) as [sx|sx| |sx mx ex] eqn:Px; try discriminate.
  destruct (Prim2SF y) as [sy|sy| |sy my ey] eqn:Py;
    [ | | | apply Double.SFeqb_finite_eq in Q; congruence];
    destruct sx; try destruct sy; cbn in Q; discriminate.
Qed.

Lemma int_to_double_finite i :
  0 <= i <= INT_MAX -> PrimFloat.is_finite (int_to_double i) = true.
Proof.
  intros Hi. rewrite Double.is_finite_SF. unfold int_to_double.
  rewrite Double.int_to_double_spec by (unfold INT_MAX in Hi; lia).
  destruct i; reflexivity.
Qed.

Lemma units_int_to_double i :
  0 <= i <= INT_MAX -> units (int_to_double i) = i * 2 ^ 1074.
Proof.
  intros Hi. unfold units, int_to_double.
  rewrite Double.int_to_double_spec by (unfold INT_MAX in Hi; lia).
  destruct i as [|p|p]; [reflexivity| |lia].
  cbn [int_SF SFval cond_Zopp].
  assert (B : Zpos (Pos.size p) <= 31) by (apply Double.size_bound; unfold INT_MAX in Hi; lia).
  rewrite Double.iter_xO_value, Z2Pos.id by lia.
  rewrite <- Z.mul_assoc, <- Z.pow_add_r by lia. do 2 f_equal. lia.
Qed.

(** Rounding overflows only from 2^1023 (2^2097 units) on. *)
Lemma binary_round_finite sx m e :
  -1074 <= e -> Zpos m * 2 ^ (e + 1074) < 2 ^ 2097 ->
  SFfinite (binary_round prec emax sx m e) = true.
Proof.
  intros He B. unfold binary_round.
  pose proof (Double.shl_align_spec m e (fexp prec emax (Zpos (digits2_pos m) + e))) as S.
  destruct (shl_align m e (fexp prec emax (Zpos (digits2_pos m) + e))) as [mz ez].
  cbn [fst snd] in S. destruct S as (Ez & Vz & Dz).
  set (eb := fexp prec emax (Zpos (digits2_pos m) + e)) in *.
  assert (Heb : -1074 <= eb) by (unfold eb; rewrite Double.fexp64; lia).
  assert (H0 : ez <= fexp prec emax (Zdigits2 (Zpos mz) + ez)).
  { cbn [Zdigits2]. rewrite Dz. fold eb. lia. }
  destruct (Double.binary_round_aux_correct sx (Zpos mz) ez loc_Exact (Zpos mz) 1
              ltac:(lia) ltac:(lia) ltac:(cbn [inb]; lia) H0)
    as (m' & m'' & Bm & Bl & Br & Rc & _ & _ & E).
  cbn [Zdigits2] in Bl, Br, E. rewrite Dz in Bl, Br, E. fold eb in Bl, Br, E.
  rewrite Z.mul_1_r in Br. rewrite E.
  assert (Small : eb <= 970).
  { destruct (Z_le_gt_dec eb 970) as [|G]; [assumption|exfalso].
    specialize (Bl ltac:(lia)).
    assert (P1 : 0 < 2 ^ (eb - ez)) by (apply Z.pow_pos_nonneg; lia).
    assert (P2 : 0 < 2 ^ (ez + 1074)) by (apply Z.pow_pos_nonneg; lia).
    assert (X : Zpos m * 2 ^ (e + 1074) = Zpos mz * 2 ^ (ez + 1074)).
    { rewrite Vz, <- Z.mul_assoc, <- Z.pow_add_r by lia. do 2 f_equal. lia. }
    assert (G1 : 2 ^ 52 * 2 ^ (eb - ez) <= Zpos mz) by nia.
    assert (G2 : 2 ^ 52 * 2 ^ (eb - ez) * 2 ^ (ez + 1074) <= Zpos mz * 2 ^ (ez + 1074))
      by (apply Z.mul_le_mono_nonneg_r; lia).
    rewrite <- Z.mul_assoc, <- Z.pow_add_r, <- Z.pow_add_r in G2 by lia.
    assert (2 ^ 2097 <= 2 ^ (52 + (eb - ez + (ez + 1074)))) by (apply Z.pow_le_mono_r; lia).
    lia. }
  destruct (m'' =? 0); [reflexivity|].
  destruct (m'' =? 2 ^ 53).
  - destruct (Z.leb_spec (eb + 1) 971); [reflexivity|lia].
  - destruct (Z.leb_spec eb 971); [reflexivity|lia].
Qed.

Lemma binary_normalize_finite M e :
  -1074 <= e -> Z.abs (M * 2 ^ (e + 1074)) < 2 ^ 2097 ->
  SFfinite (binary_normalize prec emax M e false) = true.
Proof.
  intros He B. assert (0 < 2 ^ (e + 1074)) by (apply Z.pow_pos_nonneg; lia).
  destruct M as [|m|m]; cbn [binary_normalize]; [reflexivity| |];
    apply binary_round_finite; try assumption.
  - rewrite Z.abs_eq in B by nia. exact B.
  - replace (Zpos m * 2 ^ (e + 1074)) with (Z.abs (Zneg m * 2 ^ (e + 1074))); [exact B|].
    rewrite Z.abs_mul. rewrite (Z.abs_eq (2 ^ _)) by lia. reflexivity.
Qed.

Lemma SFsub_finite x y :
  valid_binary x = true -> valid_binary y = true ->
  SFfinite x = true -> SFfinite y = true ->
  Z.abs (SFval x - SFval y) < 2 ^ 2097 ->
  SFfinite (SFsub prec emax x y) = true.
Proof.
  intros Vx Vy Fx Fy B.
  destruct x as [sx|sx| |sx mx ex], y as [sy|sy| |sy my ey]; try discriminate;
    try reflexivity.
  - destruct sx, sy; reflexivity.
  - pose proof (Double.valid_exponent _ _ _ Vx). pose proof (Double.valid_exponent _ _ _ Vy).
    cbn [SFsub]. apply binary_normalize_finite; [lia|].
    rewrite Z.mul_sub_distr_r, !Double.aligned_value by lia. exact B.
Qed.

(** A difference of two finite doubles that is itself no larger than 2^1023
    is finite, has the sign of the exact difference, and is exact when the
    exact difference is a double. *)
Lemma sub_units x y :
  PrimFloat.is_finite x = true -> PrimFloat.is_finite y = true ->
  Z.abs (units x - units y) < 2 ^ 2097 ->
  PrimFloat.is_finite (x - y) = true
  /\ 2 * Z.abs (units (x - y) - (units x - units y)) <= Z.abs (units x - units y)
  /\ forall z, PrimFloat.is_finite z = true -> units z = units x - units y ->
               units (x - y) = units z.
Proof.
  rewrite !Double.is_finite_SF. unfold units. rewrite FloatAxioms.sub_spec. unfold SF64sub.
  intros Fx Fy B.
  pose proof (SFsub_finite _ _ (Prim2SF_valid x) (Prim2SF_valid y) Fx Fy B) as Fr.
  destruct (Double.SFsub_nearest _ _ (Prim2SF_valid x) (Prim2SF_valid y) Fx Fy Fr) as [Nr Rel].
  split; [exact Fr|]. split; [exact Rel|].
  intros z Fz Ez. rewrite Double.is_finite_SF in Fz.
  specialize (Nr _ (Prim2SF_valid z) Fz). lia.
Qed.

End DoubleOrder.

(** * More on the countdown *)

Lemma int_to_double_ltb_units j limit :
  0 <= j <= INT_MAX -> PrimFloat.is_finite limit = true ->
  (int_to_double j <? limit)%float = (j * 2 ^ 1074 <? units limit).
Proof.
  intros Hj F.
  rewrite DoubleOrder.ltb_units, DoubleOrder.units_int_to_double
    by (try apply DoubleOrder.int_to_double_finite; assumption).
  reflexivity.
Qed.

(** Against a limit that is not finite the loop condition is constant. *)
Lemma int_to_double_ltb_not_finite j limit :
  0 <= j <= INT_MAX -> PrimFloat.is_finite limit = false ->
  (int_to_double j <? limit)%float = (0 <? limit)%float.
Proof.
  intros Hj F. rewrite Double.is_finite_SF in F.
  rewrite !FloatAxioms.ltb_spec. unfold int_to_double at 1.
  rewrite Double.int_to_double_spec by (unfold INT_MAX in Hj; lia).
  change (Prim2SF 0) with (S754_zero false).
  destruct (Prim2SF limit) as [s|s| |s m e]; try discriminate; destruct j; reflexivity.
Qed.

Lemma ceil_seconds_spec limit k :
  PrimFloat.is_finite limit = true -> 0 <= k ->
  (forall j, 0 <= j < k -> j * 2 ^ 1074 < units limit) ->
  units limit <= k * 2 ^ 1074 ->
  ceil_seconds limit = k.
Proof.
  intros F Hk T B. unfold ceil_seconds.
  set (U := 2 ^ 1074) in *. assert (HU : 0 < U) by (apply Z.pow_pos_nonneg; lia).
  set (L := units limit) in *.
  pose proof (Z.div_mod (- L) U ltac:(lia)) as DM.
  pose proof (Z.mod_pos_bound (- L) U HU) as MB.
  set (q := - L / U) in *. set (r := (- L) mod U) in *.
  destruct (Z.eq_dec k 0) as [->|NZ].
  - assert (0 <= q) by nia. lia.
  - specialize (T (k - 1) ltac:(lia)).
    assert (q = - k) by nia. lia.
Qed.

Lemma countdown_ceiling limit :
  (int_to_double INT_MAX <? limit)%float = false ->
  countdown limit 0 [] =
  LoopDone (flat_map (countdown_body limit) (seqZ 0 (ceil_seconds limit))).
Proof.
  intros B.
  destruct (countdown_total limit (Z.to_nat INT_MAX) 0 [])
    as [(k & Bk & Tk & Fk & E) | (T & _)]; [unfold INT_MAX; lia| |].
  2: { rewrite T in B by (unfold INT_MAX; lia). discriminate. }
  rewrite E. cbn [app]. do 3 f_equal. symmetry.
  rewrite Z.add_0_l in *.
  destruct (PrimFloat.is_finite limit) eqn:F.
  - apply ceil_seconds_spec; [exact F|lia| |].
    + intros j Hj. apply Z.ltb_lt. rewrite <- int_to_double_ltb_units by (try assumption; lia).
      apply Tk. lia.
    + apply Z.ltb_ge. rewrite <- int_to_double_ltb_units by (try assumption; lia). exact Fk.
  - rewrite int_to_double_ltb_not_finite in Fk, B by (try assumption; unfold INT_MAX in *; lia).
    assert (K0 : k = 0%nat).
    { destruct k; [reflexivity|exfalso].
      pose proof (Tk 0 ltac:(lia)) as T0.
      rewrite int_to_double_ltb_not_finite in T0 by (try assumption; unfold INT_MAX in *; lia).
      congruence. }
    subst k. unfold ceil_seconds, units.
    rewrite Double.is_finite_SF in F.
    destruct (Prim2SF limit); try discriminate; reflexivity.
Qed.

Lemma seconds_left_app tr1 tr2 :
  seconds_left (tr1 ++ tr2) = seconds_left tr1 ++ seconds_left tr2.
Proof. unfold seconds_left. apply flat_map_app. Qed.

Lemma seconds_left_rounds limit (l : list Z) :
  seconds_left (flat_map (countdown_body limit) l) =
  (fun j => (limit - int_to_double j)%float) <$> l.
Proof.
  induction l as [|j l IH]; [reflexivity|].
  cbn [flat_map]. rewrite seconds_left_app, IH. reflexivity.
Qed.

(** A limit that the loop condition tells apart from some counter, and that
    does not exceed [INT_MAX], is finite. *)
Lemma limit_finite j limit :
  0 <= j <= INT_MAX ->
  (int_to_double j <? limit)%float = true ->
  (int_to_double INT_MAX <? limit)%float = false ->
  PrimFloat.is_finite limit = true.
Proof.
  intros Hj T B. destruct (PrimFloat.is_finite limit) eqn:F; [reflexivity|exfalso].
  rewrite int_to_double_ltb_not_finite in T, B by (try assumption; unfold INT_MAX in *; lia).
  congruence.
Qed.

Lemma pow2_2097 : 2 ^ 2097 = 2 ^ 1023 * 2 ^ 1074.
Proof. rewrite <- Z.pow_add_r by lia. reflexivity. Qed.

(** Inside the loop the remaining time [limit - i] is finite and positive. *)
Lemma remaining_positive j limit :
  0 <= j <= INT_MAX ->
  (int_to_double j <? limit)%float = true ->
  (int_to_double INT_MAX <? limit)%float = false ->
  PrimFloat.is_finite (limit - int_to_double j) = true
  /\ (0 <? limit - int_to_double j)%float = true.
Proof.
  intros Hj T B. pose proof (limit_finite j limit Hj T B) as F.
  pose proof (DoubleOrder.int_to_double_finite j Hj) as Fj.
  rewrite int_to_double_ltb_units in T, B by (try assumption; unfold INT_MAX; lia).
  apply Z.ltb_lt in T. apply Z.ltb_ge in B.
  assert (P : 0 < 2 ^ 1074) by (apply Z.pow_pos_nonneg; lia).
  assert (P' : 2 ^ 31 <= 2 ^ 1023) by (apply Z.pow_le_mono_r; lia).
  destruct (DoubleOrder.sub_units limit (int_to_double j) F Fj) as (Fr & Rel & _).
  { rewrite DoubleOrder.units_int_to_double by assumption. rewrite pow2_2097.
    unfold INT_MAX in *. nia. }
  rewrite DoubleOrder.units_int_to_double in Rel by assumption.
  split; [exact Fr|].
  rewrite DoubleOrder.ltb_units by (try assumption; reflexivity).
  change (units 0) with 0. apply Z.ltb_lt. lia.
Qed.

(** On integers the remaining time is computed exactly. *)
Lemma remaining_integer n j :
  0 <= j < n -> n <= INT_MAX ->
  (int_to_double n - int_to_double j)%float = int_to_double (n - j).
Proof.
  intros Hj Hn.
  pose proof (DoubleOrder.int_to_double_finite n ltac:(lia)) as Fn.
  pose proof (DoubleOrder.int_to_double_finite j ltac:(lia)) as Fj.
  pose proof (DoubleOrder.int_to_double_finite (n - j) ltac:(lia)) as Fd.
  assert (P : 0 < 2 ^ 1074) by (apply Z.pow_pos_nonneg; lia).
  assert (P' : 2 ^ 31 <= 2 ^ 1023) by (apply Z.pow_le_mono_r; lia).
  destruct (DoubleOrder.sub_units _ _ Fn Fj) as (Fr & _ & Ex).
  { rewrite !DoubleOrder.units_int_to_double by lia. rewrite pow2_2097.
    unfold INT_MAX in *. nia. }
  specialize (Ex _ Fd). rewrite !DoubleOrder.units_int_to_double in Ex by lia.
  specialize (Ex ltac:(ring)).
  apply DoubleOrder.units_inj; try assumption.
  - rewrite DoubleOrder.units_int_to_double by lia. exact Ex.
  - destruct (PrimFloat.is_zero (int_to_double n - int_to_double j)) eqn:Z; [exfalso|reflexivity].
    rewrite Double.is_zero_spec in Z. unfold units in Ex.
    destruct (Prim2SF (int_to_double n - int_to_double j)); try discriminate.
    cbn [SFval] in Ex. nia.
Qed.

(** X1: a callback whose duration does not exceed [INT_MAX] sleeps the
    duration rounded up to whole seconds (no round when the duration is
    negative, zero or not a number). *)
Theorem countdown_rounds_up (st : RRBotModularJoint) :
  ((int_to_double INT_MAX <? hw_start_sec_ st)%float = false ->
   exists st' tr,
     on_activate st = Returned SUCCESS st' tr
     /\ tr = Info MsgStarting
             :: flat_map (countdown_body (hw_start_sec_ st))
                  (seqZ 0 (ceil_seconds (hw_start_sec_ st)))
             ++ [Info MsgStarted]
     /\ count is_sleep tr = Z.to_nat (ceil_seconds (hw_start_sec_ st)))
  /\ ((int_to_double INT_MAX <? hw_stop_sec_ st)%float = false ->
      exists tr,
        on_deactivate st = Returned SUCCESS st tr
        /\ tr = Info MsgStopping
                :: flat_map (countdown_body (hw_stop_sec_ st))
                     (seqZ 0 (ceil_seconds (hw_stop_sec_ st)))
                ++ [Info MsgStopped]
        /\ count is_sleep tr = Z.to_nat (ceil_seconds (hw_stop_sec_ st))).
Proof.
  assert (C : forall x, 0 <= ceil_seconds x) by (intros x; unfold ceil_seconds; lia).
  split; intros B.
  - rewrite on_activate_run, (countdown_ceiling _ B). eexists _, _.
    split; [reflexivity|]. split; [reflexivity|].
    apply count_rounds; try reflexivity. apply C.
  - rewrite on_deactivate_run, (countdown_ceiling _ B). eexists.
    split; [reflexivity|]. split; [reflexivity|].
    apply count_rounds; try reflexivity. apply C.
Qed.

Lemma countdown_rounds_up_witness :
  (exists st' tr,
     on_activate (sample_state 2.5 0.5 100 0 0) = Returned SUCCESS st' tr
     /\ tr = Info MsgStarting
             :: flat_map (countdown_body 2.5) (seqZ 0 (ceil_seconds 2.5)) ++ [Info MsgStarted]
     /\ count is_sleep tr = Z.to_nat (ceil_seconds 2.5))
  /\ (exists tr,
        on_deactivate (sample_state 2.5 0.5 100 0 0) =
          Returned SUCCESS (sample_state 2.5 0.5 100 0 0) tr
        /\ tr = Info MsgStopping
                :: flat_map (countdown_body 0.5) (seqZ 0 (ceil_seconds 0.5)) ++ [Info MsgStopped]
        /\ count is_sleep tr = Z.to_nat (ceil_seconds 0.5)).
Proof.
  destruct (countdown_rounds_up (sample_state 2.5 0.5 100 0 0)) as [A B].
  split; [exact (A eq_refl) | exact (B eq_refl)].
Defined.

Lemma seconds_left_callback (a b : Event) limit k :
  seconds_left [a] = [] -> seconds_left [b] = [] ->
  seconds_left (a :: flat_map (countdown_body limit) (seqZ 0 k) ++ [b]) =
  (fun j => (limit - int_to_double j)%float) <$> seqZ 0 k.
Proof.
  intros Ha Hb. change (a :: ?l) with ([a] ++ l).
  rewrite !seconds_left_app, Ha, Hb, seconds_left_rounds, app_nil_r. reflexivity.
Qed.

Lemma remaining_all_positive limit :
  (int_to_double INT_MAX <? limit)%float = false ->
  Forall (fun v => PrimFloat.is_finite v = true /\ (0 <? v)%float = true)
    ((fun j => (limit - int_to_double j)%float) <$> seqZ 0 (ceil_seconds limit)).
Proof.
  intros B. apply Forall_fmap, Forall_forall. intros j Hj. apply elem_of_seqZ in Hj.
  destruct (countdown_total limit (Z.to_nat INT_MAX) 0 [])
    as [(k & Bk & Tk & Fk & E) | (T & _)]; [unfold INT_MAX; lia| |].
  2: { rewrite T in B by (unfold INT_MAX; lia). discriminate. }
  rewrite (countdown_ceiling _ B) in E. injection E as E. cbn [app] in E.
  assert (K : ceil_seconds limit = Z.of_nat k).
  { apply (f_equal (@length Event)) in E.
    assert (L : forall l, length (flat_map (countdown_body limit) l) = (2 * length l)%nat).
    { induction l as [|x l IH]; [reflexivity|]. cbn [flat_map length app countdown_body].
      rewrite IH. lia. }
    rewrite !L, !length_seqZ in E. unfold ceil_seconds in *. lia. }
  cbn beta. apply remaining_positive; [unfold INT_MAX in *; lia | | exact B].
  apply Tk. lia.
Qed.

(** X2: in a callback that completes, the remaining time handed to each
    countdown line is the duration minus the counter, in double arithmetic,
    and this double is finite and strictly positive.  This is about the
    value given to the format, not about the text, which shows it rounded
    to one decimal. *)
Theorem countdown_reports_positive_time (st : RRBotModularJoint) :
  ((int_to_double INT_MAX <? hw_start_sec_ st)%float = false ->
   exists st' tr,
     on_activate st = Returned SUCCESS st' tr
     /\ seconds_left tr =
        (fun j => (hw_start_sec_ st - int_to_double j)%float)
          <$> seqZ 0 (ceil_seconds (hw_start_sec_ st))
     /\ Forall (fun v => PrimFloat.is_finite v = true /\ (0 <? v)%float = true)
          (seconds_left tr))
  /\ ((int_to_double INT_MAX <? hw_stop_sec_ st)%float = false ->
      exists tr,
        on_deactivate st = Returned SUCCESS st tr
        /\ seconds_left tr =
           (fun j => (hw_stop_sec_ st - int_to_double j)%float)
             <$> seqZ 0 (ceil_seconds (hw_stop_sec_ st))
        /\ Forall (fun v => PrimFloat.is_finite v = true /\ (0 <? v)%float = true)
             (seconds_left tr)).
Proof.
  split; intros B.
  - rewrite on_activate_run, (countdown_ceiling _ B). eexists _, _.
    split; [reflexivity|]. rewrite seconds_left_callback by reflexivity.
    split; [reflexivity|]. apply remaining_all_positive, B.
  - rewrite on_deactivate_run, (countdown_ceiling _ B). eexists.
    split; [reflexivity|]. rewrite seconds_left_callback by reflexivity.
    split; [reflexivity|]. apply remaining_all_positive, B.
Qed.

Lemma countdown_reports_positive_time_witness :
  (exists st' tr,
     on_activate (sample_state 2.5 0.5 100 0 0) = Returned SUCCESS st' tr
     /\ seconds_left tr =
        (fun j => (2.5 - int_to_double j)%float) <$> seqZ 0 (ceil_seconds 2.5)
     /\ Forall (fun v => PrimFloat.is_finite v = true /\ (0 <? v)%float = true)
          (seconds_left tr))
  /\ (exists tr,
        on_deactivate (sample_state 2.5 0.5 100 0 0) =
          Returned SUCCESS (sample_state 2.5 0.5 100 0 0) tr
        /\ seconds_left tr =
           (fun j => (0.5 - int_to_double j)%float) <$> seqZ 0 (ceil_seconds 0.5)
        /\ Forall (fun v => PrimFloat.is_finite v = true /\ (0 <? v)%float = true)
             (seconds_left tr)).
Proof.
  destruct (countdown_reports_positive_time (sample_state 2.5 0.5 100 0 0)) as [A B].
  split; [exact (A eq_refl) | exact (B eq_refl)].
Defined.

(** X3: with a duration of [n] whole seconds, [0 <= n <= INT_MAX], the
    countdown lines report n, n - 1, ..., 1 seconds, exactly. *)
Theorem countdown_counts_down (n : Z) (st : RRBotModularJoint) :
  0 <= n <= INT_MAX ->
  (hw_start_sec_ st = int_to_double n ->
   exists st' tr,
     on_activate st = Returned SUCCESS st' tr
     /\ seconds_left tr = (fun j => int_to_double (n - j)) <$> seqZ 0 n)
  /\ (hw_stop_sec_ st = int_to_double n ->
      exists tr,
        on_deactivate st = Returned SUCCESS st tr
        /\ seconds_left tr = (fun j => int_to_double (n - j)) <$> seqZ 0 n).
Proof.
  intros Hn.
  assert (E : countdown (int_to_double n) 0 [] =
              LoopDone (flat_map (countdown_body (int_to_double n)) (seqZ 0 n))).
  { rewrite (countdown_done (int_to_double n) (Z.to_nat n) 0 []).
    - rewrite Z2Nat.id by lia. reflexivity.
    - lia.
    - intros j Hj. rewrite Double.int_to_double_ltb by lia. apply Z.ltb_lt. lia.
    - rewrite Double.int_to_double_ltb by lia. apply Z.ltb_ge. lia. }
  assert (S : (fun j => (int_to_double n - int_to_double j)%float) <$> seqZ 0 n =
              (fun j => int_to_double (n - j)) <$> seqZ 0 n).
  { apply Forall_fmap_ext_1, Forall_forall. intros j Hj. apply elem_of_seqZ in Hj.
    apply remaining_integer; lia. }
  split; intros L.
  - rewrite on_activate_run, L, E. eexists _, _. split; [reflexivity|].
    rewrite seconds_left_callback by reflexivity. exact S.
  - rewrite on_deactivate_run, L, E. eexists. split; [reflexivity|].
    rewrite seconds_left_callback by reflexivity. exact S.
Qed.

Lemma countdown_counts_down_witness :
  (exists st' tr,
     on_activate (sample_state 3 3 100 0 0) = Returned SUCCESS st' tr
     /\ seconds_left tr = (fun j => int_to_double (3 - j)) <$> seqZ 0 3)
  /\ (exists tr,
        on_deactivate (sample_state 3 3 100 0 0) = Returned SUCCESS (sample_state 3 3 100 0 0) tr
        /\ seconds_left tr = (fun j => int_to_double (3 - j)) <$> seqZ 0 3).
Proof.
  destruct (countdown_counts_down 3 (sample_state 3 3 100 0 0)) as [A B];
    [unfold INT_MAX; lia|].
  split; [exact (A eq_refl) | exact (B eq_refl)].
Defined.

(** * Consecutive reads *)

Module Cycles.

Lemma SFadd_nan_r x : SFadd prec emax x S754_nan = S754_nan.
Proof. destruct x; reflexivity. Qed.

Lemma SFdiv_nan_r x : SFdiv prec emax x S754_nan = S754_nan.
Proof. destruct x; reflexivity. Qed.

Lemma simulate_nan s c d :
  PrimFloat.is_nan s || PrimFloat.is_nan c || PrimFloat.is_nan d = true ->
  PrimFloat.is_nan (simulate s c d) = true.
Proof.
  rewrite !Double.is_nan_spec. unfold simulate.
  rewrite FloatAxioms.add_spec, FloatAxioms.div_spec, FloatAxioms.sub_spec.
  unfold SF64add, SF64div, SF64sub. intros H.
  apply orb_true_iff in H. destruct H as [H|H]; [apply orb_true_iff in H; destruct H as [H|H]|].
  - destruct (Prim2SF s); try discriminate. reflexivity.
  - destruct (Prim2SF c); try discriminate.
    replace (SFsub prec emax S754_nan (Prim2SF s)) with S754_nan by reflexivity.
    replace (SFdiv prec emax S754_nan (Prim2SF d)) with S754_nan by reflexivity.
    rewrite SFadd_nan_r. reflexivity.
  - destruct (Prim2SF d); try discriminate.
    rewrite SFdiv_nan_r, SFadd_nan_r. reflexivity.
Qed.

Lemma simulate_keeps_not_finite s c d :
  PrimFloat.is_finite s = false -> PrimFloat.is_finite (simulate s c d) = false.
Proof.
  rewrite !Double.is_finite_SF. unfold simulate. rewrite FloatAxioms.add_spec. unfold SF64add.
  intros F. destruct (SFfinite (SFadd prec emax _ _)) eqn:E; [|reflexivity].
  apply Double.SFadd_finite_inv in E. destruct E. congruence.
Qed.

Lemma simulate_zero_slowdown s c d :
  PrimFloat.is_zero d = true -> PrimFloat.is_finite (simulate s c d) = false.
Proof.
  rewrite Double.is_zero_spec, Double.is_finite_SF. unfold simulate.
  rewrite FloatAxioms.add_spec, FloatAxioms.div_spec. unfold SF64add, SF64div.
  intros Z. destruct (Prim2SF d) as [sd|sd| |sd md ed]; try discriminate.
  destruct (SFfinite (SFadd prec emax _ _)) eqn:E; [|reflexivity].
  apply Double.SFadd_finite_inv in E. destruct E as [_ E].
  destruct (Prim2SF (c - s)); discriminate.
Qed.

Lemma eqb_finite x y :
  (x =? y)%float = true -> PrimFloat.is_finite y = true -> PrimFloat.is_finite x = true.
Proof.
  rewrite FloatAxioms.eqb_spec, !Double.is_finite_SF.
  destruct (Prim2SF x) as [sx|sx| |sx mx ex], (Prim2SF y) as [sy|sy| |sy my ey];
    try discriminate; try reflexivity; destruct sx; discriminate.
Qed.

End Cycles.

Lemma read_cycles_run (n : nat) : forall st joint rest,
  joints (info_ st) = joint :: rest ->
  exists tr,
    read_cycles n st =
    Returned tt
      (set_hw_joint_state_
         (simulate_cycles n (hw_joint_state_ st) (hw_joint_command_ st) (hw_slowdown_ st)) st)
      tr.
Proof.
  induction n as [|n IH]; intros st joint rest J.
  - exists []. destruct st; reflexivity.
  - cbn [read_cycles simulate_cycles]. unfold mbind at 1, M_bind.
    rewrite (read_run st joint rest J).
    destruct (IH (set_hw_joint_state_
                    (simulate (hw_joint_state_ st) (hw_joint_command_ st) (hw_slowdown_ st)) st)
                 joint rest J) as [tr E].
    rewrite E. eexists. reflexivity.
Qed.

Lemma simulate_cycles_add m k s c d :
  simulate_cycles (m + k) s c d = simulate_cycles k (simulate_cycles m s c d) c d.
Proof.
  revert s. induction m as [|m IH]; intros s; [reflexivity|]. cbn [Nat.add simulate_cycles].
  apply IH.
Qed.

Lemma simulate_cycles_never_farther n : forall s c d,
  (1 <=? d)%float = true ->
  PrimFloat.is_finite (simulate_cycles n s c d) = true ->
  PrimFloat.is_finite s = true
  /\ Z.abs (units (simulate_cycles n s c d) - units c) <= Z.abs (units s - units c).
Proof.
  induction n as [|n IH]; intros s c d D F; cbn [simulate_cycles] in *; [split; [exact F|lia]|]. destruct (IH _ _ _ D F) as [F1 N1].
  destruct (Double.simulate_finite_operands _ _ _ D F1) as [Fs _].
  pose proof (Double.simulate_never_farther _ _ _ D F1). split; [exact Fs|lia].
Qed.

(** X4: with a slowdown of at least 1 and an unchanged command, the
    distance of the joint state to the command never grows from one read to
    a later one, as long as the state stays finite. *)
Theorem read_cycles_approach (m n : nat) (st : RRBotModularJoint) (joint : ComponentInfo)
    (rest : list ComponentInfo) :
  joints (info_ st) = joint :: rest ->
  (1 <=? hw_slowdown_ st)%float = true ->
  (m <= n)%nat ->
  PrimFloat.is_finite
    (simulate_cycles n (hw_joint_state_ st) (hw_joint_command_ st) (hw_slowdown_ st)) = true ->
  exists stm stn trm trn,
    read_cycles m st = Returned tt stm trm
    /\ read_cycles n st = Returned tt stn trn
    /\ hw_joint_command_ stn = hw_joint_command_ st
    /\ PrimFloat.is_finite (hw_joint_state_ stm) = true
    /\ Z.abs (units (hw_joint_state_ stn) - units (hw_joint_command_ st))
       <= Z.abs (units (hw_joint_state_ stm) - units (hw_joint_command_ st)).
Proof.
  intros J D L F.
  destruct (read_cycles_run m st joint rest J) as [trm Em].
  destruct (read_cycles_run n st joint rest J) as [trn En].
  eexists _, _, _, _. split; [exact Em|]. split; [exact En|].
  cbn [hw_joint_state_ hw_joint_command_ set_hw_joint_state_].
  split; [reflexivity|].
  replace n with (m + (n - m))%nat in F |- * by lia.
  rewrite simulate_cycles_add in F |- *.
  apply simulate_cycles_never_farther; assumption.
Qed.

Lemma read_cycles_approach_witness :
  exists stm stn trm trn,
    read_cycles 1 (sample_state 2 3 100 0 1) = Returned tt stm trm
    /\ read_cycles 3 (sample_state 2 3 100 0 1) = Returned tt stn trn
    /\ hw_joint_command_ stn = 1%float
    /\ PrimFloat.is_finite (hw_joint_state_ stm) = true
    /\ Z.abs (units (hw_joint_state_ stn) - units 1)
       <= Z.abs (units (hw_joint_state_ stm) - units 1).
Proof.
  apply (read_cycles_approach 1 3 (sample_state 2 3 100 0 1) sample_joint [] eq_refl eq_refl);
    [lia | reflexivity].
Defined.

Lemma simulate_cycles_equilibrium n : forall s c d,
  PrimFloat.is_finite s = true -> (c =? s)%float = true ->
  PrimFloat.is_nan d = false -> PrimFloat.is_zero d = false ->
  (simulate_cycles n s c d =? c)%float = true.
Proof.
  induction n as [|n IH]; intros s c d F E N Z; cbn [simulate_cycles].
  - pose proof (Cycles.eqb_finite _ _ E F) as Fc.
    rewrite DoubleOrder.eqb_units in E |- * by assumption.
    apply Z.eqb_eq in E. apply Z.eqb_eq. lia.
  - destruct (Double.simulate_equilibrium s c d F E N Z) as [Q _].
    pose proof (Cycles.eqb_finite _ _ Q F) as F1.
    pose proof (Cycles.eqb_finite _ _ E F) as Fc.
    apply IH; try assumption.
    rewrite DoubleOrder.eqb_units in E, Q |- * by assumption.
    apply Z.eqb_eq in E, Q. apply Z.eqb_eq. lia.
Qed.

(** X5: a finite joint state at the command stays at the command through
    any number of reads, whatever the slowdown, zero and NaN excepted. *)
Theorem read_cycles_at_rest (n : nat) (st : RRBotModularJoint) (joint : ComponentInfo)
    (rest : list ComponentInfo) :
  joints (info_ st) = joint :: rest ->
  PrimFloat.is_finite (hw_joint_state_ st) = true ->
  (hw_joint_command_ st =? hw_joint_state_ st)%float = true ->
  PrimFloat.is_nan (hw_slowdown_ st) = false ->
  PrimFloat.is_zero (hw_slowdown_ st) = false ->
  exists st' tr,
    read_cycles n st = Returned tt st' tr
    /\ (hw_joint_state_ st' =? hw_joint_command_ st)%float = true
    /\ hw_joint_command_ st' = hw_joint_command_ st.
Proof.
  intros J F E N Z. destruct (read_cycles_run n st joint rest J) as [tr En].
  eexists _, _. split; [exact En|].
  cbn [hw_joint_state_ hw_joint_command_ set_hw_joint_state_].
  split; [|reflexivity]. apply simulate_cycles_equilibrium; assumption.
Qed.

Lemma read_cycles_at_rest_witness :
  exists st' tr,
    read_cycles 5 (sample_state 2 3 100 1.5 1.5) = Returned tt st' tr
    /\ (hw_joint_state_ st' =? 1.5)%float = true
    /\ hw_joint_command_ st' = 1.5%float.
Proof.
  exact (read_cycles_at_rest 5 (sample_state 2 3 100 1.5 1.5) sample_joint []
           eq_refl eq_refl eq_refl eq_refl eq_refl).
Defined.

Lemma simulate_cycles_nan n : forall s c d,
  PrimFloat.is_nan s = true -> PrimFloat.is_nan (simulate_cycles n s c d) = true.
Proof.
  induction n as [|n IH]; intros s c d N; [exact N|]. cbn [simulate_cycles].
  apply IH, Cycles.simulate_nan. rewrite N. reflexivity.
Qed.

(** X6: when the joint state, the command or the slowdown is NaN, every
    read leaves NaN in the joint state: reading does not repair it (only an
    activation replaces a NaN state), and a read before the first activation
    yields NaN. *)
Theorem read_cycles_keep_nan (n : nat) (st : RRBotModularJoint) (joint : ComponentInfo)
    (rest : list ComponentInfo) :
  joints (info_ st) = joint :: rest ->
  PrimFloat.is_nan (hw_joint_state_ st) || PrimFloat.is_nan (hw_joint_command_ st)
    || PrimFloat.is_nan (hw_slowdown_ st) = true ->
  exists st' tr,
    read_cycles (S n) st = Returned tt st' tr
    /\ PrimFloat.is_nan (hw_joint_state_ st') = true.
Proof.
  intros J N. destruct (read_cycles_run (S n) st joint rest J) as [tr En].
  eexists _, _. split; [exact En|]. cbn [hw_joint_state_ set_hw_joint_state_ simulate_cycles].
  apply simulate_cycles_nan, Cycles.simulate_nan, N.
Qed.

Lemma read_cycles_keep_nan_witness :
  exists st' tr,
    read_cycles 3 (sample_state 2 3 100 nan nan) = Returned tt st' tr
    /\ PrimFloat.is_nan (hw_joint_state_ st') = true.
Proof.
  exact (read_cycles_keep_nan 2 (sample_state 2 3 100 nan nan) sample_joint [] eq_refl eq_refl).
Defined.

Lemma simulate_cycles_not_finite n : forall s c d,
  PrimFloat.is_finite s = false -> PrimFloat.is_finite (simulate_cycles n s c d) = false.
Proof.
  induction n as [|n IH]; intros s c d N; [exact N|]. cbn [simulate_cycles].
  apply IH, Cycles.simulate_keeps_not_finite, N.
Qed.

(** X7: with a slowdown of zero (of either sign) the first read replaces
    the joint state, whatever it and the command were, by an infinity or
    NaN, and no later read brings a finite state back. *)
Theorem read_cycles_zero_slowdown (n : nat) (st : RRBotModularJoint) (joint : ComponentInfo)
    (rest : list ComponentInfo) :
  joints (info_ st) = joint :: rest ->
  PrimFloat.is_zero (hw_slowdown_ st) = true ->
  exists st' tr,
    read_cycles (S n) st = Returned tt st' tr
    /\ PrimFloat.is_finite (hw_joint_state_ st') = false.
Proof.
  intros J Z. destruct (read_cycles_run (S n) st joint rest J) as [tr En].
  eexists _, _. split; [exact En|]. cbn [hw_joint_state_ set_hw_joint_state_ simulate_cycles].
  apply simulate_cycles_not_finite, Cycles.simulate_zero_slowdown, Z.
Qed.

Lemma read_cycles_zero_slowdown_witness :
  exists st' tr,
    read_cycles 2 (sample_state 2 3 0 0.5 1) = Returned tt st' tr
    /\ PrimFloat.is_finite (hw_joint_state_ st') = false.
Proof.
  exact (read_cycles_zero_slowdown 1 (sample_state 2 3 0 0.5 1) sample_joint [] eq_refl eq_refl).
Defined.

(** * More on initialisation *)

Lemma touch_present key info :
  is_Some (hardware_parameters info !! key) -> touch key info = info.
Proof. unfold touch. intros [v ->]. reflexivity. Qed.

Lemma parsed_present (stod : string -> StodResult) info key v :
  stod "" = StodInvalidArgument ->
  stod (param_value info key) = Parsed v ->
  is_Some (hardware_parameters info !! key).
Proof.
  intros S P. unfold param_value in P.
  destruct (hardware_parameters info !! key); [eexists; reflexivity|].
  cbn in P. congruence.
Qed.

(** What a [SUCCESS] of [on_init] tells. *)
Lemma on_init_success_inv (stod : string -> StodResult)
    (base : HardwareInfo -> CallbackReturn) info st st' tr :
  on_init stod base info st = Returned SUCCESS st' tr ->
  base info = SUCCESS
  /\ exists joint rest start stop slowdown,
       joints info = joint :: rest
       /\ joint_shape_ok joint = true
       /\ stod (param_value info "example_param_hw_start_duration_sec") = Parsed start
       /\ stod (param_value info "example_param_hw_stop_duration_sec") = Parsed stop
       /\ stod (param_value info "example_param_hw_slowdown") = Parsed slowdown
       /\ st' = initialised info start stop slowdown
       /\ tr = [].
Proof.
  rewrite on_init_run.
  destruct (decide (base info ≠ SUCCESS)) as [N|E]; [discriminate|].
  apply dec_stable in E.
  destruct (stod (param_value info "example_param_hw_start_duration_sec")) as [start| |];
    try discriminate.
  destruct (stod (param_value info "example_param_hw_stop_duration_sec")) as [stop| |];
    try discriminate.
  destruct (stod (param_value info "example_param_hw_slowdown")) as [slowdown| |];
    try discriminate.
  destruct (joints info) as [|joint rest]; [discriminate|].
  destruct (check_interfaces_run joint (initialised info start stop slowdown)) as [C [V _]].
  rewrite C. intros H. split; [exact E|].
  exists joint, rest, start, stop, slowdown.
  destruct (joint_shape_ok joint); [|discriminate].
  rewrite (V eq_refl) in H. injection H as <- <-. repeat split; reflexivity.
Qed.

(** X8: when [on_init] returns [SUCCESS] it has logged nothing, the
    description has a first joint with exactly one "position" command
    interface and one "position" state interface, the three parameters were
    present and converted by [stod], and the object holds the description
    as passed, the three converted values, and NaN for the joint state and
    command, whatever it held before. *)
Theorem on_init_success_guarantees (stod : string -> StodResult)
    (base : HardwareInfo -> CallbackReturn) (info : HardwareInfo)
    (st st' : RRBotModularJoint) (tr : list Event) :
  stod "" = StodInvalidArgument ->
  on_init stod base info st = Returned SUCCESS st' tr ->
  tr = []
  /\ info_ st' = info
  /\ (exists joint rest, joints info = joint :: rest /\ joint_shape_ok joint = true)
  /\ Forall (fun key => is_Some (hardware_parameters info !! key)) init_keys
  /\ stod (param_value info "example_param_hw_start_duration_sec") = Parsed (hw_start_sec_ st')
  /\ stod (param_value info "example_param_hw_stop_duration_sec") = Parsed (hw_stop_sec_ st')
  /\ stod (param_value info "example_param_hw_slowdown") = Parsed (hw_slowdown_ st')
  /\ PrimFloat.is_nan (hw_joint_state_ st') = true
  /\ PrimFloat.is_nan (hw_joint_command_ st') = true.
Proof.
  intros S H.
  destruct (on_init_success_inv _ _ _ _ _ _ H)
    as (_ & joint & rest & start & stop & slowdown & J & Ok & P1 & P2 & P3 & -> & ->).
  pose proof (parsed_present stod info _ _ S P1) as K1.
  pose proof (parsed_present stod info _ _ S P2) as K2.
  pose proof (parsed_present stod info _ _ S P3) as K3.
  split; [reflexivity|]. split.
  { unfold initialised. cbn [info_]. rewrite (touch_present _ _ K1), (touch_present _ _ K2).
    apply touch_present, K3. }
  split; [eauto|]. split; [repeat constructor; assumption|].
  cbn [initialised hw_start_sec_ hw_stop_sec_ hw_slowdown_ hw_joint_state_ hw_joint_command_].
  repeat split; assumption || reflexivity.
Qed.

Lemma on_init_success_guarantees_witness :
  [] = @nil Event
  /\ info_ (initialised sample_info 2 3 100) = sample_info
  /\ (exists joint rest, joints sample_info = joint :: rest /\ joint_shape_ok joint = true)
  /\ Forall (fun key => is_Some (hardware_parameters sample_info !! key)) init_keys
  /\ stod_sample (param_value sample_info "example_param_hw_start_duration_sec")
     = Parsed (hw_start_sec_ (initialised sample_info 2 3 100))
  /\ stod_sample (param_value sample_info "example_param_hw_stop_duration_sec")
     = Parsed (hw_stop_sec_ (initialised sample_info 2 3 100))
  /\ stod_sample (param_value sample_info "example_param_hw_slowdown")
     = Parsed (hw_slowdown_ (initialised sample_info 2 3 100))
  /\ PrimFloat.is_nan (hw_joint_state_ (initialised sample_info 2 3 100)) = true
  /\ PrimFloat.is_nan (hw_joint_command_ (initialised sample_info 2 3 100)) = true.
Proof.
  apply (on_init_success_guarantees stod_sample base_sample sample_info
           (sample_state 0 0 0 1 1) (initialised sample_info 2 3 100) [] eq_refl).
  vm_compute. reflexivity.
Defined.

(** X10: the parameters are converted in the order start duration, stop
    duration, slowdown: the exception of the first one that [stod] rejects
    leaves [on_init], with nothing logged, whatever the later parameters and
    the joints are. *)
Theorem on_init_first_rejected_parameter (stod : string -> StodResult)
    (base : HardwareInfo -> CallbackReturn) (info : HardwareInfo) (st : RRBotModularJoint)
    (before after : list string) (key : string) (f : Fault) :
  base info = SUCCESS ->
  init_keys = before ++ key :: after ->
  forallb (fun k => parses stod (param_value info k)) before = true ->
  stod_fault (stod (param_value info key)) = Some f ->
  on_init stod base info st = Faulted f [].
Proof.
  intros B K P F. rewrite on_init_run, B.
  destruct (decide (SUCCESS ≠ SUCCESS)) as [N|_]; [congruence|].
  unfold init_keys in K. unfold parses in P.
  destruct before as [|k1 [|k2 [|k3 before]]]; cbn [app forallb] in K, P.
  - injection K as <- _.
    destruct (stod _); cbn in F; congruence.
  - injection K as <- <- _.
    destruct (stod (param_value info "example_param_hw_start_duration_sec")); try discriminate.
    destruct (stod _); cbn in F; congruence.
  - injection K as <- <- <- _.
    destruct (stod (param_value info "example_param_hw_start_duration_sec")); try discriminate.
    destruct (stod (param_value info "example_param_hw_stop_duration_sec")); try discriminate.
    destruct (stod _); cbn in F; congruence.
  - exfalso. injection K as _ _ _ K. destruct before; discriminate.
Qed.

Lemma on_init_first_rejected_parameter_witness :
  on_init stod_sample base_sample
    {| hardware_parameters := {[ "example_param_hw_start_duration_sec" := "2.0" ]};
       joints := [] |}
    (sample_state 0 0 0 0 0)
  = Faulted InvalidArgument [].
Proof.
  apply (on_init_first_rejected_parameter stod_sample base_sample _ _
           ["example_param_hw_start_duration_sec"] ["example_param_hw_slowdown"]
           "example_param_hw_stop_duration_sec" InvalidArgument);
    [reflexivity | reflexivity | vm_compute; reflexivity | vm_compute; reflexivity].
Defined.

(** * The callbacks in any order *)

Lemma countdown_overflow_inv limit tr :
  countdown limit 0 [] = LoopOverflow tr -> too_long limit = true.
Proof.
  intros E. unfold too_long.
  destruct (countdown_total limit (Z.to_nat INT_MAX) 0 []) as [(k & _ & _ & _ & D)|[T _]].
  - unfold INT_MAX; lia.
  - congruence.
  - apply T. unfold INT_MAX; lia.
Qed.

Lemma call_run c st joint rest :
  joints (info_ st) = joint :: rest ->
  match call c st with
  | Returned _ st' _ => same_configuration st st'
  | Faulted f _ =>
      f = SignedOverflow
      /\ (too_long (hw_start_sec_ st) = true \/ too_long (hw_stop_sec_ st) = true)
  end.
Proof.
  intros J. destruct c as [| | | | | |m v]; cbn [call]; unfold mbind, M_bind.
  - unfold export_state_interfaces. run. rewrite J. cbn. repeat split.
  - unfold export_command_interfaces. run. rewrite J. cbn. repeat split.
  - rewrite on_activate_run.
    destruct (countdown (hw_start_sec_ st) 0 []) as [tr|tr] eqn:E.
    + cbn. destruct (PrimFloat.is_nan (hw_joint_state_ st)); repeat split.
    + split; [reflexivity|]. left. eapply countdown_overflow_inv, E.
  - rewrite on_deactivate_run.
    destruct (countdown (hw_stop_sec_ st) 0 []) as [tr|tr] eqn:E.
    + cbn. repeat split.
    + split; [reflexivity|]. right. eapply countdown_overflow_inv, E.
  - rewrite (read_run st joint rest J). cbn. repeat split.
  - unfold write. run. rewrite J. cbn. repeat split.
  - destruct m; cbn; repeat split.
Qed.

Lemma calls_run cs : forall st joint rest,
  joints (info_ st) = joint :: rest ->
  match calls cs st with
  | Returned _ st' _ => same_configuration st st'
  | Faulted f _ =>
      f = SignedOverflow
      /\ (too_long (hw_start_sec_ st) = true \/ too_long (hw_stop_sec_ st) = true)
  end.
Proof.
  induction cs as [|c cs IH]; intros st joint rest J.
  - cbn. repeat split.
  - cbn [calls]. unfold mbind at 1, M_bind.
    pose proof (call_run c st joint rest J) as C.
    destruct (call c st) as [[] st1 tr1|f tr1]; [|exact C].
    destruct C as (I & A & D & L).
    assert (J1 : joints (info_ st1) = joint :: rest) by (rewrite I; exact J).
    specialize (IH st1 joint rest J1).
    destruct (calls cs st1) as [[] st2 tr2|f tr2].
    + destruct IH as (I' & A' & D' & L'). repeat split; congruence.
    + rewrite A, D in IH. exact IH.
Qed.

(** X11: once [on_init] has returned [SUCCESS], whatever sequence of
    [export_state_interfaces], [export_command_interfaces], [on_activate],
    [on_deactivate], [read], [write] and stores through the exported
    pointers follows, no call indexes [joints] out of range or throws: the
    sequence runs to its end and leaves the description and the three
    parameters as [on_init] set them, unless a countdown overflows its
    [int] counter, which takes a start or stop duration above [INT_MAX]. *)
Theorem callbacks_after_init (stod : string -> StodResult)
    (base : HardwareInfo -> CallbackReturn) (info : HardwareInfo)
    (st0 st1 : RRBotModularJoint) (tr1 : list Event) (cs : list Call) :
  on_init stod base info st0 = Returned SUCCESS st1 tr1 ->
  match calls cs st1 with
  | Returned _ st' _ => same_configuration st1 st'
  | Faulted f _ =>
      f = SignedOverflow
      /\ (too_long (hw_start_sec_ st1) = true \/ too_long (hw_stop_sec_ st1) = true)
  end.
Proof.
  intros H.
  destruct (on_init_success_inv _ _ _ _ _ _ H)
    as (_ & joint & rest & start & stop & slowdown & J & _ & _ & _ & _ & -> & _).
  apply (calls_run cs _ joint rest).
  unfold initialised. cbn [info_]. rewrite !joints_touch. exact J.
Qed.

Lemma callbacks_after_init_witness :
  match calls [CallExportState; CallExportCommand; CallActivate; CallRead;
               CallStore HwJointCommand 1; CallWrite; CallRead; CallDeactivate]
          (initialised sample_info 2 3 100) with
  | Returned _ st' _ => same_configuration (initialised sample_info 2 3 100) st'
  | Faulted f _ =>
      f = SignedOverflow
      /\ (too_long (hw_start_sec_ (initialised sample_info 2 3 100)) = true
          \/ too_long (hw_stop_sec_ (initialised sample_info 2 3 100)) = true)
  end.
Proof.
  apply (callbacks_after_init stod_sample base_sample sample_info
           (sample_state 0 0 0 1 1) (initialised sample_info 2 3 100) []).
  vm_compute. reflexivity.
Defined.

(** X12: after a successful [on_init], [on_activate] with a start duration
    of at most [INT_MAX] seconds returns [SUCCESS] with the joint state and
    command at 0, and any number of [read]s that follow, with a slowdown
    that is neither NaN nor zero and no command written in between, return
    and leave the state at zero and the command 0. *)
Theorem startup_rests_at_zero (stod : string -> StodResult)
    (base : HardwareInfo -> CallbackReturn) (info : HardwareInfo)
    (st0 st1 : RRBotModularJoint) (tr1 : list Event) (n : nat) :
  on_init stod base info st0 = Returned SUCCESS st1 tr1 ->
  too_long (hw_start_sec_ st1) = false ->
  PrimFloat.is_nan (hw_slowdown_ st1) = false ->
  PrimFloat.is_zero (hw_slowdown_ st1) = false ->
  exists st2 tr2 st3 tr3,
    on_activate st1 = Returned SUCCESS st2 tr2
    /\ hw_joint_state_ st2 = 0%float
    /\ hw_joint_command_ st2 = 0%float
    /\ read_cycles n st2 = Returned tt st3 tr3
    /\ (hw_joint_state_ st3 =? 0)%float = true
    /\ hw_joint_command_ st3 = 0%float.
Proof.
  intros H L N Z.
  destruct (on_init_success_inv _ _ _ _ _ _ H)
    as (_ & joint & rest & start & stop & slowdown & J & _ & _ & _ & _ & -> & _).
  cbn [initialised hw_start_sec_ hw_slowdown_] in L, N, Z.
  rewrite on_activate_run. cbn [initialised hw_start_sec_ hw_joint_state_].
  destruct (countdown start 0 []) as [tr|tr] eqn:E.
  2:{ apply countdown_overflow_inv in E. congruence. }
  change (PrimFloat.is_nan nan) with true. cbv iota.
  set (st2 := set_hw_joint_command_ 0 (set_hw_joint_state_ 0 _)).
  assert (J2 : joints (info_ st2) = joint :: rest).
  { subst st2. unfold initialised.
    cbn [info_ set_hw_joint_command_ set_hw_joint_state_].
    rewrite !joints_touch. exact J. }
  destruct (read_cycles_run n st2 joint rest J2) as [tr3 R].
  eexists st2, _, _, tr3. split; [reflexivity|].
  split; [reflexivity|]. split; [reflexivity|]. split; [exact R|].
  cbn [hw_joint_state_ hw_joint_command_ hw_slowdown_ set_hw_joint_state_
       set_hw_joint_command_ st2].
  split; [|reflexivity].
  apply (simulate_cycles_equilibrium n 0 0 slowdown); try assumption; reflexivity.
Qed.

Lemma startup_rests_at_zero_witness :
  exists st2 tr2 st3 tr3,
    on_activate (initialised sample_info 2 3 100) = Returned SUCCESS st2 tr2
    /\ hw_joint_state_ st2 = 0%float
    /\ hw_joint_command_ st2 = 0%float
    /\ read_cycles 4 st2 = Returned tt st3 tr3
    /\ (hw_joint_state_ st3 =? 0)%float = true
    /\ hw_joint_command_ st3 = 0%float.
Proof.
  apply (startup_rests_at_zero stod_sample base_sample sample_info
           (sample_state 0 0 0 1 1) (initialised sample_info 2 3 100) [] 4);
    vm_compute; reflexivity.
Defined.
